(** * heroprotocol.js: archive cache, section dispatch, event filter, normalizer

    A shallow embedding of [src/includes/heroprotocol.js].  JavaScript values
    are a first-order data type, thrown exceptions are an explicit outcome,
    and the mutable pieces of the module (the [lastUsed] slot, the archive
    objects with the properties the module stores on them, the calls made to
    the container reader, the decoders and the logger) are threaded through
    an explicit [state].  The module loader ([require]) is a function of the
    environment; its calls are not recorded. *)

From Stdlib Require Import Init.Byte ZArith DecimalString.
From stdpp Require Import gmap strings list fin_maps.

Local Open Scope string_scope.
Local Open Scope list_scope.
Set Warnings "-register-all".

(** ** JavaScript values *)

(** The values the module handles: decoded protocol data is made of numbers,
    booleans, strings, [Buffer]s (binary blobs), arrays and plain objects.
    Numbers are the integers the decoders produce.  A plain object is its
    list of own properties in insertion order; what it inherits from
    [Object.prototype] is a built-in of the language, [VBuiltin name] being
    the value of [Object.prototype[name]] (the function [Object] for
    [constructor], and so on). *)
Inductive value : Type :=
| VUndefined
| VNull
| VBool (b : bool)
| VNum (n : Z)
| VStr (s : string)
| VBuf (bytes : list byte)
| VArr (items : list value)
| VObj (fields : list (string * value))
| VBuiltin (name : string).

(** Induction over values that reaches inside arrays and objects. *)
Section value_induction.
Variable P : value → Prop.
Hypothesis Pundef : P VUndefined.
Hypothesis Pnull : P VNull.
Hypothesis Pbool : ∀ b, P (VBool b).
Hypothesis Pnum : ∀ n, P (VNum n).
Hypothesis Pstr : ∀ s, P (VStr s).
Hypothesis Pbuf : ∀ bytes, P (VBuf bytes).
Hypothesis Parr : ∀ items, Forall P items → P (VArr items).
Hypothesis Pobj : ∀ fields, Forall (λ kv, P kv.2) fields → P (VObj fields).
Hypothesis Pbuiltin : ∀ name, P (VBuiltin name).

Fixpoint value_nested_ind (v : value) : P v :=
  match v with
  | VUndefined => Pundef
  | VNull => Pnull
  | VBool b => Pbool b
  | VNum n => Pnum n
  | VStr s => Pstr s
  | VBuf bytes => Pbuf bytes
  | VArr items =>
      Parr items
        ((fix go (l : list value) : Forall P l :=
            match l with
            | [] => Forall_nil_2 P
            | x :: l' => Forall_cons_2 P x l' (value_nested_ind x) (go l')
            end) items)
  | VObj fields =>
      Pobj fields
        ((fix go (l : list (string * value)) : Forall (λ kv, P kv.2) l :=
            match l with
            | [] => Forall_nil_2 _
            | kv :: l' =>
                Forall_cons_2 (λ kv, P kv.2) kv l' (value_nested_ind kv.2) (go l')
            end) fields)
  | VBuiltin name => Pbuiltin name
  end.
End value_induction.

(** [!data]: the falsy values are [undefined], [null], [false], [0] and the
    empty string; every object (buffers and empty arrays included) and every
    function is truthy. *)
Definition truthy (v : value) : bool :=
  match v with
  | VUndefined | VNull => false
  | VBool b => b
  | VNum n => negb (n =? 0)%Z
  | VStr s => negb (String.eqb s "")
  | VBuf _ | VArr _ | VObj _ | VBuiltin _ => true
  end.

(** ** ValueNormalizer: [parseStrings] *)

Section Normalizer.
(** [Buffer.prototype.toString()], the UTF-8 decoding of a binary blob. *)
Variable buffer_toString : list byte → string.

(** Lines 31-41.  The object case assigns [data[key] = parseStrings(data[key])]
    for each key in place and returns the same object: the keys and their
    order stay, every property value is replaced.  A built-in is a function,
    or [Object.prototype] itself, which has no enumerable property: it is
    returned as it is. *)
Fixpoint parseStrings (data : value) : value :=
  if negb (truthy data) then data
  else match data with
       | VBuf bytes => VStr (buffer_toString bytes)
       | VArr items => VArr (map parseStrings items)
       | VObj fields => VObj (map (λ kv, (kv.1, parseStrings kv.2)) fields)
       | _ => data
       end.

(** A value with no [Buffer] anywhere inside. *)
Fixpoint buffer_free (v : value) : bool :=
  match v with
  | VBuf _ => false
  | VArr items => forallb buffer_free items
  | VObj fields => forallb (λ kv, buffer_free kv.2) fields
  | _ => true
  end.

(** String conversion of a value, as done by a template literal and by [+]
    with a string.  Integers print in decimal; an array joins its elements
    with commas ([null] and [undefined] print as nothing); a plain object
    prints as [[object Object]], and so does [Object.prototype]; a built-in
    function prints as native code. *)
Fixpoint js_to_string (v : value) : string :=
  match v with
  | VUndefined => "undefined"
  | VNull => "null"
  | VBool true => "true"
  | VBool false => "false"
  | VNum n => NilZero.string_of_int (Z.to_int n)
  | VStr s => s
  | VBuf bytes => buffer_toString bytes
  | VArr items =>
      String.concat ","
        (map (λ x, match x with
                   | VUndefined | VNull => ""
                   | _ => js_to_string x
                   end) items)
  | VObj _ => "[object Object]"
  | VBuiltin name =>
      if String.eqb name "__proto__" then "[object Object]"
      else "function " +:+ (if String.eqb name "constructor" then "Object" else name)
           +:+ "() { [native code] }"
  end.
End Normalizer.

(** ** Property access and strict equality *)

(** Own property [fields[key]] of a plain object, [undefined] when absent. *)
Fixpoint own_prop (fields : list (string * value)) (key : string) : value :=
  match fields with
  | [] => VUndefined
  | (k, v) :: rest => if String.eqb k key then v else own_prop rest key
  end.

(** The property names of [Object.prototype], which every plain object
    inherits. *)
Definition object_prototype : list string :=
  ["constructor"; "toString"; "toLocaleString"; "valueOf"; "hasOwnProperty";
   "isPrototypeOf"; "propertyIsEnumerable"; "__proto__";
   "__defineGetter__"; "__defineSetter__"; "__lookupGetter__"; "__lookupSetter__"].

Definition inherited (key : string) : bool :=
  existsb (String.eqb key) object_prototype.

(** What a read finds when the object has no own property [key]: the
    built-in the object inherits, or [undefined]. *)
Definition from_prototype (key : string) : value :=
  if inherited key then VBuiltin key else VUndefined.

Definition has_own (fields : list (string * value)) (key : string) : bool :=
  existsb (λ kv, String.eqb kv.1 key) fields.

(** [obj[key]] on a plain object: the own property when there is one, and
    the prototype chain otherwise. *)
Definition read_prop (fields : list (string * value)) (key : string) : value :=
  if has_own fields key then own_prop fields key else from_prototype key.

(** A thrown JavaScript [Error]. *)
Record exn : Type := Exn { message : string }.

(** What a call does: return a value or throw. *)
Inductive outcome (A : Type) : Type :=
| Ret (a : A)
| Throw (e : exn).
Arguments Ret {A} a.
Arguments Throw {A} e.

(** [v[key]] for a data field name [key] (the module reads [m_version] and
    [m_baseBuild] this way): reading a property of [undefined] or [null]
    throws a TypeError, a plain object is read as above, and numbers,
    booleans, strings, buffers, arrays and built-ins have no such
    property. *)
Definition get_prop (v : value) (key : string) : outcome value :=
  match v with
  | VUndefined | VNull =>
      Throw (Exn ("TypeError: Cannot read property '" +:+ key +:+ "'"))
  | VObj fields => Ret (read_prop fields key)
  | _ => Ret VUndefined
  end.

(** [a === b].  Primitives compare by value.  Buffers, arrays and objects
    compare by reference, and a freshly decoded property is never the very
    object a caller put in a filterSpec, so they are never equal here.  A
    built-in is the same object wherever it is reached from. *)
Definition strict_eq (a b : value) : bool :=
  match a, b with
  | VUndefined, VUndefined => true
  | VNull, VNull => true
  | VBool x, VBool y => Bool.eqb x y
  | VNum x, VNum y => (x =? y)%Z
  | VStr x, VStr y => String.eqb x y
  | VBuiltin x, VBuiltin y => String.eqb x y
  | _, _ => false
  end.

(** ** Sections and decoders (lines 11-29) *)

Definition HEADER : string := "header".
Definition DETAILS : string := "replay.details".
Definition INITDATA : string := "replay.initdata".
Definition GAME_EVENTS : string := "replay.game.events".
Definition MESSAGE_EVENTS : string := "replay.message.events".
Definition TRACKER_EVENTS : string := "replay.tracker.events".
Definition ATTRIBUTES_EVENTS : string := "replay.attributes.events".
Definition RAW_DATA : string := "replay.server.battlelobby".

(** The method names of a protocol module. *)
Inductive decoder : Type :=
| decodeReplayHeader
| decodeReplayDetails
| decodeReplayInitdata
| decodeReplayGameEvents
| decodeReplayMessageEvents
| decodeReplayTrackerEvents
| decodeReplayAttributesEvents.

Definition decoderMap (archiveFile : string) : option decoder :=
  if String.eqb archiveFile HEADER then Some decodeReplayHeader
  else if String.eqb archiveFile DETAILS then Some decodeReplayDetails
  else if String.eqb archiveFile INITDATA then Some decodeReplayInitdata
  else if String.eqb archiveFile GAME_EVENTS then Some decodeReplayGameEvents
  else if String.eqb archiveFile MESSAGE_EVENTS then Some decodeReplayMessageEvents
  else if String.eqb archiveFile TRACKER_EVENTS then Some decodeReplayTrackerEvents
  else if String.eqb archiveFile ATTRIBUTES_EVENTS then Some decodeReplayAttributesEvents
  else None.

(** [list.indexOf(x) > -1] on a list of strings. *)
Definition indexOf_found (l : list string) (x : string) : bool :=
  existsb (String.eqb x) l.

Definition single_shot : list string := [DETAILS; INITDATA; ATTRIBUTES_EVENTS].
Definition streaming : list string := [GAME_EVENTS; MESSAGE_EVENTS; TRACKER_EVENTS].
Definition six_sections : list string := single_shot ++ streaming.

(** An event record, as a generator decoder yields it: a plain object, with
    [Object.prototype] as its prototype. *)
Definition event : Type := list (string * value).

(** A run of a generator decoder: the events it yields, in order, and then
    either completion or a throw. *)
Record generator : Type := {
  yielded : list event;
  raises : option exn
}.

(** A protocol module ([heroprotocol/lib/protocolNNNNN]): the single-shot
    decoders return a value or throw, the event decoders are generators.
    A method the module lacks is a decoder that throws. *)
Record protocol_module : Type := {
  decode : decoder → value → outcome value;
  decode_events : decoder → value → generator
}.

(** The container reader's view of an MPQ archive: the user data header blob
    and [readFile]. *)
Record container : Type := {
  userDataHeader_content : value;
  readFile : string → outcome value
}.

(** What [archive.error] holds: the error caught from [require], or the
    message string of line 93. *)
Inductive error_state : Type :=
| ErrObject (e : exn)
| ErrString (s : string).

(** An [MPQArchive] object together with the properties the module stores on
    it.  [data = None] is an archive on which [archive.data] was never set;
    [filename = None] is a handle that carries no [filename] property. *)
Record archive : Type := {
  mpq : container;
  filename : option string;
  data : option (gmap string value);
  baseBuild : option value;
  protocol : option protocol_module;
  error : option error_state;
  has_get : bool
}.

Definition set_data (d : option (gmap string value)) (a : archive) : archive :=
  {| mpq := mpq a; filename := filename a; data := d; baseBuild := baseBuild a;
     protocol := protocol a; error := error a; has_get := has_get a |}.
Definition set_baseBuild (b : option value) (a : archive) : archive :=
  {| mpq := mpq a; filename := filename a; data := data a; baseBuild := b;
     protocol := protocol a; error := error a; has_get := has_get a |}.
Definition set_protocol (p : option protocol_module) (a : archive) : archive :=
  {| mpq := mpq a; filename := filename a; data := data a; baseBuild := baseBuild a;
     protocol := p; error := error a; has_get := has_get a |}.
Definition set_error (e : option error_state) (a : archive) : archive :=
  {| mpq := mpq a; filename := filename a; data := data a; baseBuild := baseBuild a;
     protocol := protocol a; error := e; has_get := has_get a |}.
Definition set_has_get (g : bool) (a : archive) : archive :=
  {| mpq := mpq a; filename := filename a; data := data a; baseBuild := baseBuild a;
     protocol := protocol a; error := error a; has_get := g |}.

(** [archive.data[archiveFile]]: [data] is the plain object of line 72, so a
    name it has no entry for is read through [Object.prototype]. *)
Definition data_read (d : gmap string value) (archiveFile : string) : value :=
  match d !! archiveFile with
  | Some v => v
  | None => from_prototype archiveFile
  end.

(** [archive.data[archiveFile] = v]. *)
Definition store_data (archiveFile : string) (v : value) (a : archive) : archive :=
  set_data (Some (<[archiveFile := v]> (default ∅ (data a)))) a.

(** The calls the module makes to the container reader, to the decoders and
    to the logger, in the order made.  Loading a protocol module ([require],
    lines 78 and 182) is the function [require_protocol] of the environment
    below and leaves no entry. *)
Inductive effect : Type :=
| NewMPQArchive (path : string)
| ReadFile (archiveFile : string)
| Decode (bootstrap : bool) (d : decoder)
| LoggerLog (msg : string).

(** The module state: the archive objects by reference, the [lastUsed] slot
    (line 43) and the calls made so far. *)
Record state : Type := {
  heap : list archive;
  lastUsed : option nat;
  trace : list effect
}.

Definition emit (effs : list effect) (st : state) : state :=
  {| heap := heap st; lastUsed := lastUsed st; trace := trace st ++ effs |}.

(** The environment of the module: the [Buffer] text decoding, [path], the
    container reader, the module loader and the bootstrap protocol. *)
Record env : Type := {
  buffer_toString : list byte → string;
  isAbsolute : string → bool;
  join_cwd : string → string;
  newMPQArchive : string → outcome container;
  require_protocol : string → outcome protocol_module;
  protocol29406 : protocol_module
}.

(** The first argument of [open] and the second of [get]: an archive object
    (by reference) or any other value. *)
Inductive arg : Type :=
| Val (v : value)
| Handle (r : nat).

(** What [open] returns: an archive object or an [Error] value. *)
Inductive open_result : Type :=
| Archive (r : nat)
| ErrorValue (e : exn).

(** ** ArchiveCache and HeaderResolver: [open] (lines 45-102) *)

Section Heroprotocol.
Variable E : env.

Definition normalize : value → value := parseStrings (buffer_toString E).
Definition to_string : value → string := js_to_string (buffer_toString E).

(** [file === lastUsed.filename]: a string against a string [filename], or
    [undefined] against a missing [filename]; an archive object is never
    equal to a string or to [undefined]. *)
Definition filename_eq (file : arg) (fn : option string) : bool :=
  match file, fn with
  | Val (VStr s), Some s' => String.eqb s s'
  | Val VUndefined, None => true
  | _, _ => false
  end.

(** The condition of line 48.  The slot only ever receives [MPQArchive]
    objects, so its [instanceof] test never fires. *)
Definition cache_miss (st : state) (file : arg) (noCache : bool) : bool :=
  match lastUsed st with
  | None => true
  | Some r =>
      match heap st !! r with
      | None => true
      | Some a => negb (filename_eq file (filename a)) || noCache
      end
  end.

(** The object [new MPQArchive(file)] gives after line 56. *)
Definition fresh_archive (c : container) (file : string) : archive :=
  {| mpq := c; filename := Some file; data := None; baseBuild := None;
     protocol := None; error := None; has_get := false |}.

(** Lines 50-66: turn the argument into an archive object or an [Error]
    value.  A path is made absolute and handed to the container reader,
    whose exception is caught and kept as the value; an archive object is
    used as it is; anything else is an [Error]. *)
Definition resolve (file : arg) (st : state) : open_result * state :=
  match file with
  | Val (VStr s) =>
      let file' := if isAbsolute E s then s else join_cwd E s in
      match newMPQArchive E file' with
      | Ret c =>
          (Archive (length (heap st)),
           {| heap := heap st ++ [fresh_archive c file'];
              lastUsed := lastUsed st;
              trace := trace st ++ [NewMPQArchive file'] |})
      | Throw err => (ErrorValue err, emit [NewMPQArchive file'] st)
      end
  | Handle r => (Archive r, st)
  | Val _ => (ErrorValue (Exn "Unsupported parameter: ${file}"), st)
  end.

(** Lines 72-94 on the archive object: reset [data], decode the header with
    the bootstrap protocol, read [baseBuild], load the protocol of that
    build, and either decode the header again with it or record the error
    message.  The object is returned as mutated so far also when a step
    throws. *)
Definition load_header (a : archive) : outcome unit * archive * list effect :=
  let content := userDataHeader_content (mpq a) in
  let a := set_data (Some ∅) a in
  match decode (protocol29406 E) decodeReplayHeader content with
  | Throw e => (Throw e, a, [Decode true decodeReplayHeader])
  | Ret raw =>
      let header := normalize raw in
      let a := store_data HEADER header a in
      match get_prop header "m_version" with
      | Throw e => (Throw e, a, [Decode true decodeReplayHeader])
      | Ret m_version =>
          match get_prop m_version "m_baseBuild" with
          | Throw e => (Throw e, a, [Decode true decodeReplayHeader])
          | Ret build =>
              let a := set_baseBuild (Some build) a in
              let a :=
                match require_protocol E (to_string build) with
                | Ret p => set_protocol (Some p) a
                | Throw err => set_error (Some (ErrObject err)) a
                end in
              match protocol a with
              | Some p =>
                  match decode p decodeReplayHeader content with
                  | Throw e =>
                      (Throw e, a,
                       [Decode true decodeReplayHeader;
                        Decode false decodeReplayHeader])
                  | Ret raw' =>
                      (Ret (), set_has_get true (store_data HEADER (normalize raw') a),
                       [Decode true decodeReplayHeader;
                        Decode false decodeReplayHeader])
                  end
              | None =>
                  (Ret (),
                   set_error
                     (Some (ErrString ("protocol " +:+ to_string build +:+ " not found")))
                     a,
                   [Decode true decodeReplayHeader])
              end
          end
      end
  end.

(** [exports.open(file, noCache)].  An archive object handed in is always
    one of the heap; a reference outside it does not arise. *)
Definition open (file : arg) (noCache : bool) (st : state)
  : outcome open_result * state :=
  if cache_miss st file noCache then
    match resolve file st with
    | (ErrorValue e, st1) => (Ret (ErrorValue e), st1)
    | (Archive r, st1) =>
        match heap st1 !! r with
        | None => (Throw (Exn "not an archive of the heap"), st1)
        | Some a =>
            let '(o, a', effs) := load_header a in
            let st2 := {| heap := <[r := a']> (heap st1);
                          lastUsed := Some r;
                          trace := trace st1 ++ effs |} in
            match o with
            | Throw e => (Throw e, st2)
            | Ret _ => (Ret (Archive r), st2)
            end
        end
    end
  else
    match lastUsed st with
    | Some r => (Ret (Archive r), st)
    | None => (Throw (Exn "unreachable: a cache hit has a cached archive"), st)
    end.

(** ** EventFilter (lines 128-141) *)

(** A criterion of a filterSpec: field names with their expected values. *)
Definition criterion : Type := list (string * value).

(** The inner loop over the keys of one criterion (lines 134-138).
    [event] is the event object as it stands: [parseStrings(event)]
    normalizes it in place and returns it, so each call sees what the
    previous one left.  Every key for which [event[key]], read through the
    prototype chain, is strictly equal to the expected value pushes the
    event on the bucket. *)
Fixpoint match_keys (crit : criterion) (event : value) (bucket : list value)
  : value * list value :=
  match crit with
  | [] => (event, bucket)
  | (key, expected) :: rest =>
      let event := normalize event in
      match event with
      | VObj fields =>
          if strict_eq (read_prop fields key) expected then
            let event := normalize event in
            match_keys rest event (bucket ++ [event])
          else match_keys rest event bucket
      | _ => match_keys rest event bucket
      end
  end.

(** The loop over the criteria for one event (line 133): criterion [i]
    feeds bucket [data[i]]. *)
Fixpoint filter_event (keys : list criterion) (event : value)
    (buckets : list (list value)) : value * list (list value) :=
  match keys, buckets with
  | crit :: keys', bucket :: buckets' =>
      let '(event, bucket) := match_keys crit event bucket in
      let '(event, buckets') := filter_event keys' event buckets' in
      (event, bucket :: buckets')
  | _, _ => (event, buckets)
  end.

(** Lines 128-141: one empty bucket per criterion, then every yielded event
    in order. *)
Definition filter_events (keys : list criterion) (events : list event)
  : list (list value) :=
  fold_left (λ buckets ev, (filter_event keys (VObj ev) buckets).2)
            events (map (λ _, []) keys).

(** ** SectionDecoder: [get] (lines 105-158) *)

(** Truthiness of [archive.error]. *)
Definition error_truthy (e : option error_state) : bool :=
  match e with
  | None => false
  | Some (ErrObject _) => true
  | Some (ErrString s) => negb (String.eqb s "")
  end.

(** ['Heroprotocol: ' + archive.error]. *)
Definition diagnostic (e : option error_state) : string :=
  "Heroprotocol: " +:+
    match e with
    | None => "undefined"
    | Some (ErrObject err) => "Error: " +:+ message err
    | Some (ErrString s) => s
    end.

(** Truthiness of the [keys] argument: a filterSpec is an array, hence
    truthy also when empty; a missing argument is [undefined]. *)
Definition supplied (keys : option (list criterion)) : bool :=
  match keys with Some _ => true | None => false end.

(** Write the archive object back and record the calls made. *)
Definition commit (r : nat) (a : archive) (effs : list effect) (st : state) : state :=
  {| heap := <[r := a]> (heap st); lastUsed := lastUsed st;
     trace := trace st ++ effs |}.

(** Lines 114-155 once the archive object [a] (at reference [r]) is at
    hand and carries no error. *)
Definition get_section (archiveFile : string) (r : nat) (a : archive)
    (keys : option (list criterion)) (st : state) : outcome value * state :=
  match data a with
  | None => (Throw (Exn "TypeError: Cannot read property of undefined"), st)
  | Some d =>
      let cached := data_read d archiveFile in
      if truthy cached && negb (supplied keys) then (Ret cached, st)
      else
        match protocol a with
        | None => (Ret VUndefined, st)
        | Some p =>
            if indexOf_found single_shot archiveFile then
              match readFile (mpq a) archiveFile with
              | Throw e => (Throw e, emit [ReadFile archiveFile] st)
              | Ret raw =>
                  match decoderMap archiveFile with
                  | None => (Throw (Exn "TypeError: not a function"),
                             emit [ReadFile archiveFile] st)
                  | Some dec =>
                      match decode p dec raw with
                      | Throw e =>
                          (Throw e, emit [ReadFile archiveFile; Decode false dec] st)
                      | Ret v =>
                          let v := normalize v in
                          (Ret v,
                           commit r (store_data archiveFile v a)
                                  [ReadFile archiveFile; Decode false dec] st)
                      end
                  end
              end
            else if indexOf_found streaming archiveFile then
              let effs dec := [ReadFile archiveFile; Decode false dec] in
              match keys with
              | Some keys =>
                  match readFile (mpq a) archiveFile with
                  | Throw e => (Throw e, emit [ReadFile archiveFile] st)
                  | Ret raw =>
                      match decoderMap archiveFile with
                      | None => (Throw (Exn "TypeError: not a function"),
                                 emit [ReadFile archiveFile] st)
                      | Some dec =>
                          let g := decode_events p dec raw in
                          let buckets := filter_events keys (yielded g) in
                          match raises g with
                          | Some e => (Throw e, emit (effs dec) st)
                          | None => (Ret (VArr (map VArr buckets)), emit (effs dec) st)
                          end
                      end
                  end
              | None =>
                  (* line 144 stores the empty array before anything is read *)
                  let a0 := store_data archiveFile (VArr []) a in
                  match readFile (mpq a) archiveFile with
                  | Throw e => (Throw e, commit r a0 [ReadFile archiveFile] st)
                  | Ret raw =>
                      match decoderMap archiveFile with
                      | None => (Throw (Exn "TypeError: not a function"),
                                 commit r a0 [ReadFile archiveFile] st)
                      | Some dec =>
                          let g := decode_events p dec raw in
                          let events := map (λ ev, normalize (VObj ev)) (yielded g) in
                          let st := commit r (store_data archiveFile (VArr events) a)
                                           (effs dec) st in
                          match raises g with
                          | Some e => (Throw e, st)
                          | None => (Ret (VArr events), st)
                          end
                      end
                  end
              end
            else if String.eqb archiveFile RAW_DATA then
              match readFile (mpq a) archiveFile with
              | Throw e => (Throw e, emit [ReadFile archiveFile] st)
              | Ret raw =>
                  let v := normalize raw in
                  (Ret v, commit r (store_data archiveFile v a) [ReadFile archiveFile] st)
              end
            else (Ret VUndefined, st)
        end
  end.

(** [exports.get(archiveFile, archive, keys)].  The archive argument goes
    through [open] first (line 107), with [noCache] left undefined. *)
Definition get (archiveFile : string) (archive : arg)
    (keys : option (list criterion)) (st : state) : outcome value * state :=
  match open archive false st with
  | (Throw e, st1) => (Throw e, st1)
  | (Ret (ErrorValue _), st1) =>
      (Ret VUndefined, emit [LoggerLog (diagnostic None)] st1)
  | (Ret (Archive r), st1) =>
      match heap st1 !! r with
      | None => (Throw (Exn "not an archive of the heap"), st1)
      | Some a =>
          if error_truthy (error a) then
            (Ret VUndefined, emit [LoggerLog (diagnostic (error a))] st1)
          else get_section archiveFile r a keys st1
      end
  end.

(** ** Standalone entry points (lines 166-197) *)

Definition parseHeader (buffer : value) : outcome value :=
  match decode (protocol29406 E) decodeReplayHeader buffer with
  | Throw e => Throw e
  | Ret v => Ret (normalize v)
  end.

Definition parseFile (filename : string) (buffer : value) (build : value)
  : outcome value :=
  match require_protocol E (to_string build) with
  | Throw _ => Ret VUndefined
  | Ret p =>
      if indexOf_found single_shot filename then
        match decoderMap filename with
        | None => Throw (Exn "TypeError: not a function")
        | Some dec =>
            match decode p dec buffer with
            | Throw e => Throw e
            | Ret v => Ret (normalize v)
            end
        end
      else if indexOf_found streaming filename then
        match decoderMap filename with
        | None => Throw (Exn "TypeError: not a function")
        | Some dec =>
            let g := decode_events p dec buffer in
            match raises g with
            | Some e => Throw e
            | None => Ret (VArr (map (λ ev, normalize (VObj ev)) (yielded g)))
            end
        end
      else Ret VUndefined
  end.
End Heroprotocol.

(** ** Notions used in the statements *)

(** The slot, when occupied, names an archive object on which [open] has
    set [data].  It holds at start-up and every call keeps it. *)
Definition wf (st : state) : Prop :=
  ∀ r, lastUsed st = Some r → ∃ a, heap st !! r = Some a ∧ is_Some (data a).

(** An archive whose header decodes under the bootstrap protocol to a build
    for which no protocol module loads, and on which no protocol is set. *)
Definition unsupported_build (E : env) (a : archive) (build : value) : Prop :=
  ∃ raw m_version err,
    decode (protocol29406 E) decodeReplayHeader (userDataHeader_content (mpq a)) = Ret raw
    ∧ get_prop (normalize E raw) "m_version" = Ret m_version
    ∧ get_prop m_version "m_baseBuild" = Ret build
    ∧ require_protocol E (to_string E build) = Throw err
    ∧ protocol a = None.

Definition is_obj (v : value) : Prop :=
  match v with VObj _ => True | _ => False end.

(** An expected value that is plain data: neither [undefined] nor a
    built-in. *)
Definition data_expected (v : value) : Prop :=
  match v with VUndefined | VBuiltin _ => False | _ => True end.

(** [event[key]] on a normalized event. *)
Definition prop_of (ev : value) (key : string) : value :=
  match ev with
  | VObj fields => read_prop fields key
  | _ => VUndefined
  end.

(** The fields of a criterion that match an event: what [event[key]] reads
    for the field (the own property, or what the event inherits when it has
    none: a built-in for a name of [Object.prototype], [undefined] for any
    other) is strictly equal to the expected value. *)
Definition field_matches (ev : value) (kv : string * value) : bool :=
  strict_eq (prop_of ev kv.1) kv.2.

Definition matching_fields (crit : list (string * value)) (ev : value) : nat :=
  length (List.filter (field_matches ev) crit).

(** An event matches a criterion when at least one field does. *)
Definition matches (crit : list (string * value)) (ev : value) : bool :=
  existsb (field_matches ev) crit.

(** What the code puts in the bucket of a criterion: every event of the
    normalized decode, in order, once per matching field. *)
Definition bucket_of (crit : list (string * value)) (full : list value) : list value :=
  full ≫= (λ ev, replicate (matching_fields crit ev) ev).

(** The bucket as the specification words it (a field has to be present on
    the event and equal to the expected value; a matching event is appended
    once), for comparison with the code. *)
Definition present_and_equal (ev : value) (kv : string * value) : bool :=
  match ev with
  | VObj fields =>
      bool_decide (kv.1 ∈ fields.*1) && strict_eq (own_prop fields kv.1) kv.2
  | _ => false
  end.

Definition spec_bucket (crit : list (string * value)) (full : list value) : list value :=
  List.filter (λ ev, existsb (present_and_equal ev) crit) full.

(** [archive.data[archiveFile]] of the archive object at [r], when set. *)
Definition cached_section (st : state) (r : nat) (archiveFile : string) : option value :=
  a ← heap st !! r; d ← data a; d !! archiveFile.

(** A call a client makes, and the state a sequence of calls leaves. *)
Inductive call : Type :=
| CallOpen (file : arg) (noCache : bool)
| CallGet (archiveFile : string) (archive : arg) (keys : option (list criterion)).

Definition run_call (E : env) (c : call) (st : state) : state :=
  match c with
  | CallOpen file noCache => (open E file noCache st).2
  | CallGet archiveFile archive keys => (get E archiveFile archive keys st).2
  end.

Definition run_calls (E : env) (calls : list call) (st : state) : state :=
  fold_left (λ st c, run_call E c st) calls st.

(** ** A sample environment

    A concrete world on which the statements below are exercised: one
    protocol module, registered for build 29406 only, whose decoders hand
    back the structured value a member already holds; containers for a
    supported and an unsupported build; a file system with two replays. *)

Definition sample_events : list value :=
  [ VObj [("_event", VStr "SCmd"); ("m_playerId", VNum 1)];
    VObj [("_event", VStr "SCmd"); ("m_playerId", VNum 2)];
    VObj [("_event", VStr "SChat"); ("m_playerId", VNum 1); ("m_text", VBuf [x67; x67])];
    VObj [("_event", VStr "SPing"); ("m_playerId", VNum 3)];
    VObj [("_event", VStr "SPing"); ("m_playerId", VNum 4)] ].

Definition sample_protocol : protocol_module :=
  {| decode := λ _ raw, Ret raw;
     decode_events := λ _ raw,
       match raw with
       | VArr items =>
           {| yielded := omap (λ v, match v with VObj f => Some f | _ => None end) items;
              raises := None |}
       | _ => {| yielded := []; raises := Some (Exn "corrupt stream") |}
       end |}.

Definition sample_container (build : Z) : container :=
  {| userDataHeader_content :=
       VObj [("m_signature", VBuf [x48; x6f; x74; x53]);
             ("m_version", VObj [("m_baseBuild", VNum build)])];
     readFile := λ name,
       if String.eqb name DETAILS then Ret (VObj [("m_title", VBuf [x48; x69])])
       else if String.eqb name GAME_EVENTS then Ret (VArr sample_events)
       else Ret VNull |}.

Definition sample_env : env :=
  {| buffer_toString := String.string_of_list_byte;
     isAbsolute := String.prefix "/";
     join_cwd := λ s, "/cwd/" +:+ s;
     newMPQArchive := λ path,
       if String.eqb path "/cwd/a.StormReplay" then Ret (sample_container 29406)
       else if String.eqb path "/cwd/b.StormReplay" then Ret (sample_container 99999)
       else Throw (Exn "ENOENT: no such file");
     require_protocol := λ v,
       if String.eqb v "29406" then Ret sample_protocol
       else Throw (Exn "Cannot find module");
     protocol29406 := sample_protocol |}.

(** An archive object the caller built from a buffer: no [filename]. *)
Definition sample_handle (build : Z) : archive :=
  {| mpq := sample_container build; filename := None; data := None;
     baseBuild := None; protocol := None; error := None; has_get := false |}.

(** The state at start-up, with two such objects in the heap and nothing in
    the slot. *)
Definition sample_state : state :=
  {| heap := [sample_handle 29406; sample_handle 99999];
     lastUsed := None; trace := [] |}.

(** Run a second step in the state the first one leaves. *)
Definition after {A : Type} (step : state → outcome A * state) (st : state) : state :=
  (step st).2.

(** The state after [open] on the first object, and that object then. *)
Definition sample_opened : state :=
  after (open sample_env (Handle 0) false) sample_state.
Definition sample_loaded : archive :=
  default (sample_handle 29406) (heap sample_opened !! 0).

(** The states after an unfiltered [get] of the details and of the game
    events on that object, and after [open] on the path of the first
    replay. *)
Definition sample_details_cached : state :=
  after (get sample_env DETAILS (Handle 0) None) sample_state.
Definition sample_events_cached : state :=
  after (get sample_env GAME_EVENTS (Handle 0) None) sample_state.
Definition sample_path_opened : state :=
  after (open sample_env (Val (VStr "/cwd/a.StormReplay")) false) sample_state.

(** ** Further notions and a second sample environment *)

(** The calls [open] makes on its own: reading a container and decoding the
    header. *)
Definition opening_effect (e : effect) : Prop :=
  match e with
  | NewMPQArchive _ => True
  | Decode _ decodeReplayHeader => True
  | _ => False
  end.

(** Every value held in a section cache is normalized: it has no [Buffer]
    inside. *)
Definition cache_normalized (st : state) : Prop :=
  ∀ r a d archiveFile v,
    heap st !! r = Some a → data a = Some d → d !! archiveFile = Some v →
    buffer_free v = true.

(** A generator that yields the objects of a list in order and throws at the
    first item that is not an object. *)
Fixpoint strict_events (items : list value) : generator :=
  match items with
  | [] => {| yielded := []; raises := None |}
  | VObj fields :: rest =>
      {| yielded := fields :: yielded (strict_events rest);
         raises := raises (strict_events rest) |}
  | _ :: _ => {| yielded := []; raises := Some (Exn "unexpected end of stream") |}
  end.

(** A protocol module whose decoders throw on a [null] blob. *)
Definition strict_protocol : protocol_module :=
  {| decode := λ _ raw,
       match raw with
       | VNull => Throw (Exn "unexpected end of data")
       | _ => Ret raw
       end;
     decode_events := λ _ raw,
       match raw with
       | VArr items => strict_events items
       | _ => {| yielded := []; raises := Some (Exn "unexpected end of stream") |}
       end |}.

(** A container whose header blob does not decode, and one of build 29406
    whose details do not decode, whose game events break off after two
    events and whose lobby data is an empty blob. *)
Definition corrupt_container : container :=
  {| userDataHeader_content := VNull; readFile := λ _, Ret VNull |}.

Definition truncated_container : container :=
  {| userDataHeader_content :=
       VObj [("m_version", VObj [("m_baseBuild", VNum 29406)])];
     readFile := λ name,
       if String.eqb name DETAILS then Ret VNull
       else if String.eqb name GAME_EVENTS then
         Ret (VArr [VObj [("m_playerId", VNum 1); ("m_name", VBuf [x41])];
                    VObj [("m_playerId", VNum 2)];
                    VNull])
       else if String.eqb name RAW_DATA then Ret (VBuf [])
       else if String.eqb name INITDATA then Ret (VObj [("m_seed", VNum 7)])
       else Throw (Exn "file not found in archive") |}.

Definition strict_env : env :=
  {| buffer_toString := String.string_of_list_byte;
     isAbsolute := String.prefix "/";
     join_cwd := λ s, "/cwd/" +:+ s;
     newMPQArchive := λ path,
       if String.eqb path "/cwd/corrupt.StormReplay" then Ret corrupt_container
       else if String.eqb path "/cwd/truncated.StormReplay" then Ret truncated_container
       else Throw (Exn "ENOENT: no such file");
     require_protocol := λ v,
       if String.eqb v "29406" then Ret strict_protocol
       else Throw (Exn "Cannot find module");
     protocol29406 := strict_protocol |}.

(** Start-up with an empty heap, and the state after [open] on the truncated
    replay. *)
Definition empty_state : state := {| heap := []; lastUsed := None; trace := [] |}.

Definition truncated_opened : state :=
  after (open strict_env (Val (VStr "/cwd/truncated.StormReplay")) false) empty_state.
Definition truncated_loaded : archive :=
  default (sample_handle 0) (heap truncated_opened !! 0).

(** The archive object [open] made for the path of the first sample replay,
    and its section cache. *)
Definition sample_path_loaded : archive :=
  default (sample_handle 0) (heap sample_path_opened !! 2).
Definition sample_path_data : gmap string value :=
  default ∅ (data sample_path_loaded).
Definition truncated_data : gmap string value :=
  default ∅ (data truncated_loaded).

(** The state after [open] on the archive object of the unsupported build,
    and after [open] on the path of the replay of that build. *)
Definition sample_unsupported_opened : state :=
  after (open sample_env (Handle 1) false) sample_state.
Definition sample_unsupported_path_opened : state :=
  after (open sample_env (Val (VStr "/cwd/b.StormReplay")) false) sample_state.

(** * Properties *)

(** ** The normalizer *)

Section NormalizerFacts.
Variable buffer_toString : list byte → string.
#[local] Abbreviation parseStrings := (parseStrings buffer_toString).

Lemma parseStrings_arr items :
  parseStrings (VArr items) = VArr (map parseStrings items).
Proof. reflexivity. Qed.

Lemma parseStrings_obj fields :
  parseStrings (VObj fields) = VObj (map (λ kv, (kv.1, parseStrings kv.2)) fields).
Proof. reflexivity. Qed.

Lemma parseStrings_primitive v :
  match v with VBuf _ | VArr _ | VObj _ => True | _ => parseStrings v = v end.
Proof. destruct v; simpl; try done; by repeat case_match. Qed.

(** The normalizer leaves no buffer behind. *)
Lemma parseStrings_buffer_free v : buffer_free (parseStrings v) = true.
Proof.
  induction v as [| | b | n | s | bytes | items IH | fields IH | name]
    using value_nested_ind; try done.
  - simpl. by destruct b.
  - simpl. by destruct (n =? 0)%Z.
  - simpl. by destruct (String.eqb s "").
  - rewrite parseStrings_arr. simpl. rewrite forallb_forall.
    intros x [y [<- Hy]]%in_map_iff.
    rewrite Forall_forall in IH. apply IH. by apply list_elem_of_In.
  - rewrite parseStrings_obj. simpl. rewrite forallb_forall.
    intros x [y [<- Hy]]%in_map_iff. simpl.
    rewrite Forall_forall in IH. apply IH. by apply list_elem_of_In.
Qed.

(** A buffer-free value is a fixed point of the normalizer. *)
Lemma parseStrings_fixed v : buffer_free v = true → parseStrings v = v.
Proof.
  induction v as [| | b | n | s | bytes | items IH | fields IH | name]
    using value_nested_ind; intros Hfree; try done.
  - simpl. by destruct b.
  - simpl. by destruct (n =? 0)%Z.
  - simpl. by destruct (String.eqb s "").
  - rewrite parseStrings_arr. f_equal. simpl in Hfree.
    induction IH as [| x l Hx _ IHl]; [done |].
    simpl in *. apply andb_true_iff in Hfree as [H1 H2].
    by rewrite Hx, IHl.
  - rewrite parseStrings_obj. f_equal. simpl in Hfree.
    induction IH as [| [k x] l Hx _ IHl]; [done |].
    simpl in *. apply andb_true_iff in Hfree as [H1 H2].
    by rewrite Hx, IHl.
Qed.

Lemma parseStrings_idem v : parseStrings (parseStrings v) = parseStrings v.
Proof. apply parseStrings_fixed, parseStrings_buffer_free. Qed.

(** C4.  The normalizer is idempotent; it maps an array element-wise (same
    length, the i-th result is the normalized i-th element), maps an object
    value-wise (same keys in the same order); numbers, booleans, strings,
    null and undefined pass through unchanged; a buffer becomes its text. *)
Theorem parseStrings_idempotent_structure_preserving :
  (∀ x, parseStrings (parseStrings x) = parseStrings x)
  ∧ (∀ items, ∃ items',
        parseStrings (VArr items) = VArr items'
        ∧ length items' = length items
        ∧ ∀ i, items' !! i = parseStrings <$> items !! i)
  ∧ (∀ fields, ∃ fields',
        parseStrings (VObj fields) = VObj fields'
        ∧ fields'.*1 = fields.*1
        ∧ ∀ i, fields' !! i = (λ kv, (kv.1, parseStrings kv.2)) <$> fields !! i)
  ∧ (parseStrings VUndefined = VUndefined
     ∧ parseStrings VNull = VNull
     ∧ (∀ b, parseStrings (VBool b) = VBool b)
     ∧ (∀ n, parseStrings (VNum n) = VNum n)
     ∧ (∀ s, parseStrings (VStr s) = VStr s))
  ∧ (∀ bytes, parseStrings (VBuf bytes) = VStr (buffer_toString bytes)).
Proof.
  split_and!.
  - apply parseStrings_idem.
  - intros items. exists (map parseStrings items). split_and!.
    + reflexivity.
    + apply length_map.
    + intros i. apply list_lookup_fmap.
  - intros fields. exists (map (λ kv, (kv.1, parseStrings kv.2)) fields).
    split_and!.
    + reflexivity.
    + induction fields as [| kv l IHl]; [done |]. cbn. f_equal. exact IHl.
    + intros i. apply list_lookup_fmap.
  - reflexivity.
  - reflexivity.
  - intros b. apply (parseStrings_primitive (VBool b)).
  - intros n. apply (parseStrings_primitive (VNum n)).
  - intros s. apply (parseStrings_primitive (VStr s)).
  - reflexivity.
Qed.
End NormalizerFacts.

(** ** Section names *)

Lemma indexOf_found_elem_of l x : indexOf_found l x = true ↔ x ∈ l.
Proof.
  unfold indexOf_found. rewrite existsb_exists. split.
  - intros [y [Hy ->%String.eqb_eq]]. by apply list_elem_of_In.
  - intros Hx. exists x. split; [by apply list_elem_of_In | apply String.eqb_refl].
Qed.

Lemma indexOf_found_not_elem_of l x : indexOf_found l x = false ↔ x ∉ l.
Proof.
  rewrite <- indexOf_found_elem_of. by destruct (indexOf_found l x).
Qed.

(** Every streaming section has its generator decoder in [decoderMap]. *)
Lemma streaming_decoderMap archiveFile :
  indexOf_found streaming archiveFile = true →
  ∃ dec, decoderMap archiveFile = Some dec.
Proof.
  rewrite indexOf_found_elem_of. unfold streaming.
  rewrite !elem_of_cons, elem_of_nil.
  intros [-> | [-> | [-> | []]]]; eexists; reflexivity.
Qed.

(** No section name is a property name of [Object.prototype], so reading a
    section in [archive.data] finds the cache entry or [undefined]. *)
Lemma data_read_section d archiveFile :
  inherited archiveFile = false →
  data_read d archiveFile = default VUndefined (d !! archiveFile).
Proof.
  intros Hf. unfold data_read, from_prototype. rewrite Hf.
  by destruct (d !! archiveFile).
Qed.

Lemma data_read_cached d archiveFile v :
  d !! archiveFile = Some v → data_read d archiveFile = v.
Proof. intros Hv. unfold data_read. by rewrite Hv. Qed.

Lemma single_shot_not_inherited archiveFile :
  indexOf_found single_shot archiveFile = true → inherited archiveFile = false.
Proof.
  rewrite indexOf_found_elem_of. unfold single_shot.
  rewrite !elem_of_cons, elem_of_nil.
  by intros [-> | [-> | [-> | []]]].
Qed.

Lemma streaming_not_inherited archiveFile :
  indexOf_found streaming archiveFile = true → inherited archiveFile = false.
Proof.
  rewrite indexOf_found_elem_of. unfold streaming.
  rewrite !elem_of_cons, elem_of_nil.
  by intros [-> | [-> | [-> | []]]].
Qed.

Lemma six_sections_not_inherited archiveFile :
  archiveFile ∈ six_sections → inherited archiveFile = false.
Proof.
  unfold six_sections. rewrite elem_of_app.
  intros [H | H]; apply indexOf_found_elem_of in H;
    [by apply single_shot_not_inherited | by apply streaming_not_inherited].
Qed.

(** Discharges that a name known to be a section is not inherited. *)
Ltac section_name :=
  first [ reflexivity
        | by apply single_shot_not_inherited
        | by apply streaming_not_inherited
        | by apply six_sections_not_inherited ].

(** ** Standalone decode: [parseFile] *)

Section ParseFile.
Variable E : env.

(** C7.  With a build for which no protocol module loads, [parseFile]
    returns [undefined] whatever the section name and the buffer, and does
    not throw. *)
Theorem parseFile_unknown_version filename buffer build err :
  require_protocol E (to_string E build) = Throw err →
  parseFile E filename buffer build = Ret VUndefined.
Proof. intros Hreq. unfold parseFile. by rewrite Hreq. Qed.

(** C10.  With a build whose protocol module loads, [parseFile] returns
    [undefined] for the header name, for the raw lobby data name and for
    every name outside the three single-shot and the three streaming
    sections; a result other than [undefined] only comes from one of those
    six names. *)
Theorem parseFile_other_sections buffer build p :
  require_protocol E (to_string E build) = Ret p →
  parseFile E HEADER buffer build = Ret VUndefined
  ∧ parseFile E RAW_DATA buffer build = Ret VUndefined
  ∧ (∀ filename, filename ∉ six_sections →
       parseFile E filename buffer build = Ret VUndefined)
  ∧ (∀ filename v, parseFile E filename buffer build = Ret v →
       v ≠ VUndefined → filename ∈ six_sections).
Proof.
  intros Hreq. unfold parseFile. rewrite Hreq. split_and!.
  - reflexivity.
  - reflexivity.
  - intros filename Hout. unfold six_sections in Hout.
    rewrite elem_of_app in Hout.
    destruct (indexOf_found single_shot filename) eqn:H1.
    { exfalso. apply Hout. left. by apply indexOf_found_elem_of. }
    destruct (indexOf_found streaming filename) eqn:H2.
    { exfalso. apply Hout. right. by apply indexOf_found_elem_of. }
    reflexivity.
  - intros filename v Hres Hv. unfold six_sections. rewrite elem_of_app.
    destruct (indexOf_found single_shot filename) eqn:H1.
    { left. by apply indexOf_found_elem_of. }
    destruct (indexOf_found streaming filename) eqn:H2.
    { right. by apply indexOf_found_elem_of. }
    congruence.
Qed.
End ParseFile.

Lemma parseFile_unknown_version_witness :
  require_protocol sample_env (to_string sample_env (VStr "UNKNOWN_VERSION"))
    = Throw (Exn "Cannot find module")
  ∧ parseFile sample_env DETAILS (VBuf [x00; x01]) (VStr "UNKNOWN_VERSION")
    = Ret VUndefined.
Proof.
  split; [reflexivity |].
  apply (parseFile_unknown_version sample_env DETAILS (VBuf [x00; x01])
           (VStr "UNKNOWN_VERSION") (Exn "Cannot find module")).
  reflexivity.
Defined.

Lemma parseFile_other_sections_witness :
  require_protocol sample_env (to_string sample_env (VNum 29406)) = Ret sample_protocol
  ∧ parseFile sample_env HEADER (VBuf [x00]) (VNum 29406) = Ret VUndefined.
Proof.
  split; [reflexivity |].
  destruct (parseFile_other_sections sample_env (VBuf [x00]) (VNum 29406) sample_protocol)
    as [Hheader _]; [reflexivity | exact Hheader].
Defined.

(** ** The cache slot: [open] *)

Section Open.
Variable E : env.

(** A cache hit returns the archive of the slot and touches nothing. *)
Lemma open_hit st file noCache :
  cache_miss st file noCache = false →
  ∃ r a, lastUsed st = Some r ∧ heap st !! r = Some a
         ∧ filename_eq file (filename a) = true ∧ noCache = false
         ∧ open E file noCache st = (Ret (Archive r), st).
Proof.
  intros Hhit. pose proof Hhit as Hmiss. unfold cache_miss in Hhit.
  destruct (lastUsed st) as [r |] eqn:Hslot; [| done].
  destruct (heap st !! r) as [a |] eqn:Ha; [| done].
  apply orb_false_iff in Hhit as [Heq Hnc].
  apply negb_false_iff in Heq. exists r, a.
  unfold open. rewrite Hmiss, Hslot. done.
Qed.

(** On a miss, an argument that does not resolve gives the [Error] value
    back, and only the attempt to read the container is recorded. *)
Lemma open_miss_error st file noCache e st1 :
  cache_miss st file noCache = true →
  resolve E file st = (ErrorValue e, st1) →
  open E file noCache st = (Ret (ErrorValue e), st1).
Proof. intros Hmiss Hres. unfold open. by rewrite Hmiss, Hres. Qed.

(** Lines 64-66: a value that is neither a string nor an archive object. *)
Lemma resolve_unsupported_parameter st v :
  (∀ s, v ≠ VStr s) →
  resolve E (Val v) st = (ErrorValue (Exn "Unsupported parameter: ${file}"), st).
Proof. intros Hv. destruct v; try done. by destruct (Hv s). Qed.

(** Lines 51-59: a path whose container the reader cannot open. *)
Lemma resolve_unreadable_path st s err :
  newMPQArchive E (if isAbsolute E s then s else join_cwd E s) = Throw err →
  resolve E (Val (VStr s)) st
  = (ErrorValue err,
     emit [NewMPQArchive (if isAbsolute E s then s else join_cwd E s)] st).
Proof. intros Hnew. unfold resolve. by rewrite Hnew. Qed.

(** Whatever [resolve] does, it leaves the slot and the existing archive
    objects alone. *)
Lemma resolve_frame file st res st1 :
  resolve E file st = (res, st1) →
  lastUsed st1 = lastUsed st
  ∧ (∀ r a, heap st !! r = Some a → heap st1 !! r = Some a)
  ∧ match res with
    | ErrorValue _ => heap st1 = heap st
    | Archive _ => True
    end.
Proof.
  unfold resolve. intros Hres.
  destruct file as [v | r].
  - destruct v; try (injection Hres as <- <-; done).
    destruct (newMPQArchive E _) as [c | err]; injection Hres as <- <-; simpl.
    + split_and!; [done | | done]. intros r a Hr. by apply lookup_app_l_Some.
    + done.
  - injection Hres as <- <-. done.
Qed.

(** An [Error] value is only ever returned before the slot is written. *)
Lemma open_error_inv file noCache st e st' :
  open E file noCache st = (Ret (ErrorValue e), st') →
  cache_miss st file noCache = true ∧ resolve E file st = (ErrorValue e, st').
Proof.
  unfold open. destruct (cache_miss st file noCache) eqn:Hmiss.
  - destruct (resolve E file st) as [[r | e'] st1] eqn:Hres.
    + destruct (heap st1 !! r) as [a |]; [| done].
      destruct (load_header E a) as [[[[] | e''] a'] effs]; done.
    + intros [= -> ->]. done.
  - destruct (lastUsed st); done.
Qed.

(** [open] reads the state through the heap and the slot only: from two
    states that agree on both it returns the same thing and leaves states
    that again agree on both. *)
Lemma open_same_store file noCache st1 st2 :
  heap st1 = heap st2 → lastUsed st1 = lastUsed st2 →
  (open E file noCache st1).1 = (open E file noCache st2).1
  ∧ heap (open E file noCache st1).2 = heap (open E file noCache st2).2
  ∧ lastUsed (open E file noCache st1).2 = lastUsed (open E file noCache st2).2.
Proof.
  destruct st1 as [h1 l1 t1], st2 as [h2 l2 t2]. simpl. intros -> ->.
  unfold open, cache_miss, resolve, emit. simpl.
  repeat (case_match; simplify_eq; simpl in *); done.
Qed.

(** C9.  When [open] returns an [Error] value the slot is as it was and so
    is every archive object.  So whatever a next [open] would have returned
    before the failed call it still returns after it; and an archive that
    was cached under a filename is still returned from the cache, untouched
    and with no call made, when that filename is opened next without
    bypass. *)
Theorem open_error_leaves_slot file noCache st e st' :
  open E file noCache st = (Ret (ErrorValue e), st') →
  lastUsed st' = lastUsed st
  ∧ heap st' = heap st
  ∧ (∀ file' noCache',
       (open E file' noCache' st').1 = (open E file' noCache' st).1)
  ∧ ∀ r a p, lastUsed st = Some r → heap st !! r = Some a → filename a = Some p →
      open E (Val (VStr p)) false st' = (Ret (Archive r), st').
Proof.
  intros [Hmiss Hres]%open_error_inv.
  destruct (resolve_frame _ _ _ _ Hres) as (Hslot & _ & Hheap).
  split_and!; [done | done | |].
  - intros file' noCache'. by apply open_same_store.
  - intros r a p Hr Ha Hp. unfold open, cache_miss.
    rewrite Hslot, Hheap, Hr, Ha, Hp. simpl.
    by rewrite String.eqb_refl.
Qed.
End Open.

Section OpenErrors.
Variable E : env.

(** Off the cache, a value that is neither a string nor an archive object
    gives an [Error] value, with no exception and no state change. *)
Lemma open_unsupported_parameter st v noCache :
  cache_miss st (Val v) noCache = true →
  (∀ s, v ≠ VStr s) →
  open E (Val v) noCache st
  = (Ret (ErrorValue (Exn "Unsupported parameter: ${file}")), st).
Proof.
  intros Hmiss Hv. apply open_miss_error; [done |].
  by apply resolve_unsupported_parameter.
Qed.

(** Off the cache, a path whose container the reader cannot open gives the
    reader's error as an [Error] value, with no exception. *)
Lemma open_unreadable_path st s noCache err :
  cache_miss st (Val (VStr s)) noCache = true →
  newMPQArchive E (if isAbsolute E s then s else join_cwd E s) = Throw err →
  open E (Val (VStr s)) noCache st
  = (Ret (ErrorValue err),
     emit [NewMPQArchive (if isAbsolute E s then s else join_cwd E s)] st).
Proof.
  intros Hmiss Hnew. apply open_miss_error; [done |].
  by apply resolve_unreadable_path.
Qed.

(** The only value other than a string that the slot can answer for is
    [undefined], and only when the cached archive has no filename. *)
Lemma cache_miss_other_value st v noCache :
  (∀ s, v ≠ VStr s) → v ≠ VUndefined →
  cache_miss st (Val v) noCache = true.
Proof.
  intros Hstr Hundef. unfold cache_miss.
  destruct (lastUsed st) as [r |]; [| done].
  destruct (heap st !! r) as [a |]; [| done].
  destruct v; simpl; try done; try (by destruct (filename a)).
  by destruct (Hstr s).
Qed.
End OpenErrors.

(** ** Header resolution and the well-formedness of the slot *)

Section Header.
Variable E : env.

(** An archive object is never strictly equal to a filename, so [open] on
    an archive object always takes the slow path. *)
Lemma cache_miss_handle st r noCache : cache_miss st (Handle r) noCache = true.
Proof.
  unfold cache_miss. destruct (lastUsed st) as [r' |]; [| done].
  by destruct (heap st !! r').
Qed.

(** [load_header] always leaves [data] set, and never touches the container
    or the filename of the object. *)
Lemma load_header_frame a o a' effs :
  load_header E a = (o, a', effs) →
  is_Some (data a') ∧ mpq a' = mpq a ∧ filename a' = filename a.
Proof.
  unfold load_header. intros Hload.
  repeat (case_match; simplify_eq); simpl; eauto.
Qed.

Lemma open_wf file noCache st o st' :
  wf st → open E file noCache st = (o, st') → wf st'.
Proof.
  intros Hwf. unfold open.
  destruct (cache_miss st file noCache) eqn:Hmiss.
  - destruct (resolve E file st) as [res st1] eqn:Hres.
    destruct (resolve_frame E _ _ _ _ Hres) as (Hslot & Hkeep & _).
    assert (wf st1) as Hwf1.
    { intros r Hr. rewrite Hslot in Hr.
      destruct (Hwf r Hr) as (a & Ha & Hd). exists a. split; [by apply Hkeep | done]. }
    destruct res as [r | e]; [| by intros [= <- <-]].
    destruct (heap st1 !! r) as [a |] eqn:Ha; [| by intros [= <- <-]].
    destruct (load_header E a) as [[o' a'] effs] eqn:Hload.
    apply load_header_frame in Hload as (Hd & _ & _).
    assert (wf {| heap := <[r:=a']> (heap st1); lastUsed := Some r;
                  trace := trace st1 ++ effs |}) as Hwf2.
    { intros r' [= <-]. exists a'. split; [| done]. simpl.
      apply list_lookup_insert_eq. by eapply lookup_lt_Some. }
    destruct o'; by intros [= <- <-].
  - destruct (lastUsed st); by intros [= <- <-].
Qed.

(** After a successful [open] the returned archive sits in the slot with
    its [data] set. *)
Lemma open_archive_ready file noCache st r st' :
  wf st → open E file noCache st = (Ret (Archive r), st') →
  lastUsed st' = Some r ∧ ∃ a, heap st' !! r = Some a ∧ is_Some (data a).
Proof.
  intros Hwf Hopen. pose proof (open_wf _ _ _ _ _ Hwf Hopen) as Hwf'.
  assert (lastUsed st' = Some r) as Hslot.
  { revert Hopen. unfold open.
    destruct (cache_miss st file noCache).
    - destruct (resolve E file st) as [[r' | e] st1]; [| done].
      destruct (heap st1 !! r') as [a |]; [| done].
      destruct (load_header E a) as [[[[] | e] a'] effs]; [| done].
      by intros [= <- <-].
    - destruct (lastUsed st) eqn:Hslot; [| done]. by intros [= <- <-]. }
  split; [done | by apply Hwf'].
Qed.

(** What [load_header] does to an archive of an unsupported build: one
    bootstrap decode, the message of line 93 as error state, no protocol. *)
Lemma load_header_unsupported a build :
  unsupported_build E a build →
  ∃ a',
    load_header E a = (Ret (), a', [Decode true decodeReplayHeader])
    ∧ error a' = Some (ErrString ("protocol " +:+ to_string E build +:+ " not found"))
    ∧ unsupported_build E a' build.
Proof.
  intros (raw & m_version & err & Hdec & Hver & Hbuild & Hreq & Hproto).
  unfold load_header. rewrite Hdec. simpl. rewrite Hver, Hbuild, Hreq. simpl.
  rewrite Hproto. eexists. split_and!; [reflexivity | reflexivity |].
  exists raw, m_version, err. by simpl.
Qed.

(** The message of line 93 is a non-empty string, hence a truthy error. *)
Lemma not_found_truthy s :
  error_truthy (Some (ErrString ("protocol " +:+ s +:+ " not found"))) = true.
Proof. reflexivity. Qed.

(** [open], off the cache, on an archive of an unsupported build. *)
Lemma open_unsupported file noCache st r st1 a build :
  cache_miss st file noCache = true →
  resolve E file st = (Archive r, st1) →
  heap st1 !! r = Some a →
  unsupported_build E a build →
  ∃ st2 a2,
    open E file noCache st = (Ret (Archive r), st2)
    ∧ heap st2 !! r = Some a2
    ∧ error a2 = Some (ErrString ("protocol " +:+ to_string E build +:+ " not found"))
    ∧ unsupported_build E a2 build.
Proof.
  intros Hmiss Hres Ha Hunsup.
  destruct (load_header_unsupported a build Hunsup) as (a2 & Hload & Herr & Hunsup2).
  eexists _, a2. split_and!; [| | done | done].
  - unfold open. rewrite Hmiss, Hres, Ha, Hload. reflexivity.
  - simpl. apply list_lookup_insert_eq. by eapply lookup_lt_Some.
Qed.

(** [get] on an archive of an unsupported build: the re-open decodes the
    header with the bootstrap protocol, the error state is logged once and
    [undefined] is returned. *)
Lemma get_unsupported st r a build archiveFile keys :
  heap st !! r = Some a → unsupported_build E a build →
  ∃ st',
    get E archiveFile (Handle r) keys st = (Ret VUndefined, st')
    ∧ trace st'
      = trace st
        ++ [Decode true decodeReplayHeader;
            LoggerLog ("Heroprotocol: "
                       +:+ ("protocol " +:+ to_string E build +:+ " not found"))].
Proof.
  intros Ha Hunsup.
  destruct (load_header_unsupported a build Hunsup) as (a' & Hload & Herr & _).
  assert (<[r:=a']> (heap st) !! r = Some a') as Ha'.
  { apply list_lookup_insert_eq. by eapply lookup_lt_Some. }
  eexists. split.
  - unfold get, open. rewrite cache_miss_handle. simpl.
    rewrite Ha, Hload. simpl. rewrite Ha', Herr, not_found_truthy.
    reflexivity.
  - simpl. by rewrite <- app_assoc.
Qed.
End Header.

(** ** The event filter *)

Section Filter.
Variable E : env.

Lemma normalize_idem v : normalize E (normalize E v) = normalize E v.
Proof. apply parseStrings_idem. Qed.

Lemma normalize_is_obj v : is_obj v → is_obj (normalize E v).
Proof. by destruct v. Qed.

Lemma matching_fields_cons key expected rest ev :
  matching_fields ((key, expected) :: rest) ev
  = if strict_eq (prop_of ev key) expected
    then S (matching_fields rest ev) else matching_fields rest ev.
Proof.
  unfold matching_fields. simpl. unfold field_matches at 1. simpl.
  by destruct (strict_eq (prop_of ev key) expected).
Qed.

(** The key loop appends the normalized event once per matching field and
    leaves the event object normalized. *)
Lemma match_keys_spec crit : ∀ ev bucket,
  is_obj ev →
  is_obj (match_keys E crit ev bucket).1
  ∧ normalize E (match_keys E crit ev bucket).1 = normalize E ev
  ∧ (match_keys E crit ev bucket).2
    = bucket ++ replicate (matching_fields crit (normalize E ev)) (normalize E ev).
Proof.
  induction crit as [| [key expected] rest IH]; intros ev bucket Hobj.
  - simpl. by rewrite app_nil_r.
  - pose proof (normalize_is_obj ev Hobj) as Hnobj.
    pose proof (normalize_idem ev) as Hidem.
    rewrite matching_fields_cons. cbn [match_keys].
    destruct (normalize E ev) as [| | | | | | | fields |] eqn:Hnev; try done.
    cbn [prop_of].
    destruct (strict_eq (read_prop fields key) expected).
    + rewrite Hidem.
      destruct (IH (VObj fields) (bucket ++ [VObj fields]) I) as (H1 & H2 & H3).
      rewrite Hidem in H2, H3.
      split_and!; [done | done |]. rewrite H3, <- app_assoc. done.
    + destruct (IH (VObj fields) bucket I) as (H1 & H2 & H3).
      rewrite Hidem in H2, H3. done.
Qed.

(** One event against all criteria: bucket [i] grows by the event, once
    per matching field of criterion [i]. *)
Lemma filter_event_spec keys : ∀ ev buckets,
  is_obj ev → length buckets = length keys →
  is_obj (filter_event E keys ev buckets).1
  ∧ normalize E (filter_event E keys ev buckets).1 = normalize E ev
  ∧ (filter_event E keys ev buckets).2
    = zip_with (λ crit bucket,
                  bucket ++ replicate (matching_fields crit (normalize E ev))
                                      (normalize E ev))
               keys buckets.
Proof.
  induction keys as [| crit keys IH]; intros ev buckets Hobj Hlen.
  - destruct buckets; done.
  - destruct buckets as [| bucket buckets]; [done |].
    injection Hlen as Hlen. cbn [filter_event].
    destruct (match_keys_spec crit ev bucket Hobj) as (H1 & H2 & H3).
    destruct (match_keys E crit ev bucket) as [ev1 bucket1]. simpl in H1, H2, H3.
    destruct (IH ev1 buckets H1 Hlen) as (H4 & H5 & H6).
    destruct (filter_event E keys ev1 buckets) as [ev2 buckets2].
    simpl in H4, H5, H6. simpl. rewrite H2 in H5, H6.
    split_and!; [done | done |]. by rewrite H3, H6.
Qed.

Lemma zip_with_twice {A B} (g h : A → B → B) (l : list A) : ∀ k,
  zip_with h l (zip_with g l k) = zip_with (λ a b, h a (g a b)) l k.
Proof.
  induction l as [| a l IH]; intros [| b k]; simpl; try done. by rewrite IH.
Qed.

Lemma zip_with_empty_buckets {A B} (f : A → list B) (l : list A) :
  zip_with (λ a b, b ++ f a) l (map (λ _, []) l) = map f l.
Proof. induction l as [| a l IH]; [done |]. cbn. f_equal. exact IH. Qed.

Lemma bucket_of_cons crit ev full :
  bucket_of crit (ev :: full)
  = replicate (matching_fields crit ev) ev ++ bucket_of crit full.
Proof. reflexivity. Qed.

Lemma fold_filter_event keys events : ∀ buckets,
  length buckets = length keys →
  fold_left (λ buckets ev, (filter_event E keys (VObj ev) buckets).2) events buckets
  = zip_with (λ crit bucket,
                bucket ++ bucket_of crit (map (λ ev, normalize E (VObj ev)) events))
             keys buckets.
Proof.
  induction events as [| ev events IH]; intros buckets Hlen.
  - simpl. revert buckets Hlen.
    induction keys as [| crit keys IHk]; intros [| b bs] Hlen; simpl in *; try done.
    rewrite app_nil_r. f_equal. apply IHk. lia.
  - cbn [fold_left map].
    destruct (filter_event_spec keys (VObj ev) buckets I Hlen) as (_ & _ & ->).
    rewrite IH.
    + rewrite zip_with_twice. apply zip_with_ext; [| done | done].
      intros crit bucket. by rewrite bucket_of_cons, app_assoc.
    + rewrite length_zip_with, Hlen. apply Nat.min_id.
Qed.

(** Lines 128-141 as a whole: one bucket per criterion, each the normalized
    decode with every event repeated once per matching field. *)
Lemma filter_events_spec keys events :
  filter_events E keys events
  = map (λ crit, bucket_of crit (map (λ ev, normalize E (VObj ev)) events)) keys.
Proof.
  unfold filter_events. rewrite fold_filter_event by (by rewrite length_map).
  apply zip_with_empty_buckets.
Qed.

Lemma matches_spec crit ev :
  matches crit ev = true
  ↔ ∃ key expected, (key, expected) ∈ crit
                    ∧ strict_eq (prop_of ev key) expected = true.
Proof.
  unfold matches. rewrite existsb_exists. split.
  - intros [[key expected] [Hin Hm]]. exists key, expected.
    split; [by apply list_elem_of_In | done].
  - intros (key & expected & Hin & Hm). exists (key, expected).
    split; [by apply list_elem_of_In | done].
Qed.

Lemma matching_fields_matches crit ev :
  matching_fields crit ev ≠ 0 ↔ matches crit ev = true.
Proof.
  unfold matching_fields, matches.
  induction crit as [| kv crit IH]; simpl; [done |].
  destruct (field_matches ev kv); simpl; [done | exact IH].
Qed.

Lemma elem_of_bucket_of crit full ev :
  ev ∈ bucket_of crit full ↔ ev ∈ full ∧ matches crit ev = true.
Proof.
  unfold bucket_of. rewrite list_elem_of_bind. split.
  - intros (y & [-> Hn]%elem_of_replicate & Hy).
    split; [done | by apply matching_fields_matches].
  - intros [Hin Hm]. exists ev. split; [| done].
    apply elem_of_replicate. split; [done | by apply matching_fields_matches].
Qed.

(** Every matching event is in the bucket, in decode order. *)
Lemma filter_sublist_bucket_of crit full :
  List.filter (matches crit) full `sublist_of` bucket_of crit full.
Proof.
  induction full as [| ev full IH]; [done |].
  rewrite bucket_of_cons. simpl.
  destruct (matches crit ev) eqn:Hm.
  - apply matching_fields_matches in Hm.
    destruct (matching_fields crit ev) as [| n]; [done |].
    simpl. apply sublist_skip. by apply sublist_inserts_l.
  - by apply sublist_inserts_l.
Qed.

(** When no event matches more than one field, the bucket is the plain
    selection of the matching events. *)
Lemma bucket_of_single_match crit full :
  Forall (λ ev, (matching_fields crit ev ≤ 1)%nat) full →
  bucket_of crit full = List.filter (matches crit) full.
Proof.
  induction 1 as [| ev full Hle _ IH]; [done |].
  rewrite bucket_of_cons, IH. simpl.
  pose proof (matching_fields_matches crit ev) as Hiff.
  destruct (matches crit ev).
  - assert (matching_fields crit ev = 1) as -> by (destruct Hiff; lia). done.
  - assert (matching_fields crit ev = 0) as ->; [| done].
    destruct (matching_fields crit ev); [done |].
    destruct Hiff as [Hiff _]. by discriminate Hiff.
Qed.

(** A field whose expected value is not [undefined] only matches when it is
    present on the event. *)
Lemma has_own_elem_of fields key :
  has_own fields key = bool_decide (key ∈ fields.*1).
Proof.
  unfold has_own. induction fields as [| [k v] fields IH]; [done |].
  cbn [existsb fmap list_fmap fst]. rewrite IH.
  destruct (String.eqb_spec k key) as [-> | Hne]; simpl.
  - symmetry. apply bool_decide_eq_true. constructor.
  - apply bool_decide_ext. rewrite elem_of_cons.
    split; [auto | intros [Heq | Hin]; [congruence | done]].
Qed.

Lemma field_matches_present fields kv :
  data_expected kv.2 →
  field_matches (VObj fields) kv = present_and_equal (VObj fields) kv.
Proof.
  intros Hdata. unfold field_matches, present_and_equal, prop_of, read_prop.
  rewrite has_own_elem_of.
  destruct (bool_decide (kv.1 ∈ fields.*1)); [done |].
  unfold from_prototype. simpl.
  destruct (inherited kv.1); by destruct kv.2.
Qed.

(** With plain data as expected values, a field matches exactly when it is
    present on the event and strictly equal to its expected value. *)
Lemma matches_present crit fields :
  Forall (λ kv, data_expected kv.2) crit →
  (∃ key expected, (key, expected) ∈ crit
     ∧ strict_eq (prop_of (VObj fields) key) expected = true)
  ↔ (∃ key expected, (key, expected) ∈ crit
       ∧ present_and_equal (VObj fields) (key, expected) = true).
Proof.
  intros Hdata. rewrite Forall_forall in Hdata.
  split; intros (key & expected & Hin & Hm); exists key, expected; (split; [done |]);
    pose proof (field_matches_present fields (key, expected) (Hdata _ Hin)) as Heq;
    unfold field_matches in Heq; cbn [fst snd] in Heq; congruence.
Qed.
End Filter.

(** ** Section decoding: [get] with a filterSpec *)

Section GetFiltered.
Variable E : env.

Lemma streaming_not_single_shot archiveFile :
  indexOf_found streaming archiveFile = true →
  indexOf_found single_shot archiveFile = false.
Proof.
  rewrite indexOf_found_elem_of. unfold streaming.
  rewrite !elem_of_cons, elem_of_nil.
  by intros [-> | [-> | [-> | []]]].
Qed.

(** The filtered decode of a streaming section: the container member is
    read, the generator runs to completion, the buckets are returned and
    the archive object is left alone. *)
Lemma get_section_filtered archiveFile r a keys st d p raw dec :
  indexOf_found streaming archiveFile = true →
  data a = Some d →
  protocol a = Some p →
  readFile (mpq a) archiveFile = Ret raw →
  decoderMap archiveFile = Some dec →
  raises (decode_events p dec raw) = None →
  get_section E archiveFile r a (Some keys) st
  = (Ret (VArr (map VArr (filter_events E keys (yielded (decode_events p dec raw))))),
     emit [ReadFile archiveFile; Decode false dec] st).
Proof.
  intros Hstream Hd Hp Hread Hdec Hdone. unfold get_section.
  rewrite Hd, Hp, (streaming_not_single_shot _ Hstream), Hstream, Hread, Hdec, Hdone.
  simpl. by rewrite andb_false_r.
Qed.

(** The unfiltered decode of a streaming section not yet in the section
    cache: the normalized events, in the order yielded, returned and stored
    on the archive. *)
Lemma get_section_unfiltered archiveFile r a st d p raw dec :
  indexOf_found streaming archiveFile = true →
  data a = Some d →
  truthy (default VUndefined (d !! archiveFile)) = false →
  protocol a = Some p →
  readFile (mpq a) archiveFile = Ret raw →
  decoderMap archiveFile = Some dec →
  raises (decode_events p dec raw) = None →
  get_section E archiveFile r a None st
  = (Ret (VArr (map (λ ev, normalize E (VObj ev)) (yielded (decode_events p dec raw)))),
     commit r
       (store_data archiveFile
          (VArr (map (λ ev, normalize E (VObj ev)) (yielded (decode_events p dec raw)))) a)
       [ReadFile archiveFile; Decode false dec] st).
Proof.
  intros Hstream Hd Hcached Hp Hread Hdec Hdone. unfold get_section.
  rewrite Hd, data_read_section by section_name.
  rewrite Hcached, Hp, (streaming_not_single_shot _ Hstream), Hstream, Hread, Hdec, Hdone.
  reflexivity.
Qed.

(** C1, as the code has it.  For a streaming section of an archive that
    opens with a resolved protocol and whose generator runs to completion,
    [get] with a filterSpec of N criteria returns N buckets.  Bucket [i] is
    the normalized decode of the section (what the unfiltered [get] returns
    when the section is not cached yet), in decode order, with every event
    repeated once per field of criterion [i] that matches it: a field
    matches when what [event[key]] reads on the normalized event is strictly
    equal to the expected value, the read going through the prototype chain
    (an event without the field reads [undefined], or the inherited built-in
    when the field is named like a property of [Object.prototype]).  So an
    event is in bucket [i] exactly when it is in the decode and at least one
    field of criterion [i] matches; when the expected values of the
    criterion are plain data (neither [undefined] nor a built-in), that is
    exactly when a field of the criterion is present on the event and
    strictly equal to its expected value; the matching events all appear,
    in decode order; and when no event matches more than one field of the
    criterion, the bucket is the selection of the matching events, each
    once. *)
Theorem get_filter_buckets archiveFile archive keys st r st1 a p raw dec :
  wf st →
  indexOf_found streaming archiveFile = true →
  open E archive false st = (Ret (Archive r), st1) →
  heap st1 !! r = Some a →
  error_truthy (error a) = false →
  protocol a = Some p →
  readFile (mpq a) archiveFile = Ret raw →
  decoderMap archiveFile = Some dec →
  raises (decode_events p dec raw) = None →
  let full := map (λ ev, normalize E (VObj ev)) (yielded (decode_events p dec raw)) in
  ∃ buckets,
    get E archiveFile archive (Some keys) st
    = (Ret (VArr (map VArr buckets)),
       emit [ReadFile archiveFile; Decode false dec] st1)
    ∧ (∀ d, data a = Some d →
            truthy (default VUndefined (d !! archiveFile)) = false →
            (get E archiveFile archive None st).1 = Ret (VArr full))
    ∧ length buckets = length keys
    ∧ ∀ i crit, keys !! i = Some crit →
        ∃ bucket,
          buckets !! i = Some bucket
          ∧ bucket = bucket_of crit full
          ∧ (∀ ev, ev ∈ bucket ↔
                   ev ∈ full
                   ∧ ∃ key expected, (key, expected) ∈ crit
                       ∧ strict_eq (prop_of ev key) expected = true)
          ∧ (Forall (λ kv, data_expected kv.2) crit →
             ∀ ev, ev ∈ bucket ↔
                   ev ∈ full
                   ∧ ∃ key expected, (key, expected) ∈ crit
                       ∧ present_and_equal ev (key, expected) = true)
          ∧ List.filter (matches crit) full `sublist_of` bucket
          ∧ (Forall (λ ev, (matching_fields crit ev ≤ 1)%nat) full →
             bucket = List.filter (matches crit) full).
Proof.
  intros Hwf Hstream Hopen Ha Herr Hp Hread Hdec Hdone full.
  destruct (open_archive_ready E _ _ _ _ _ Hwf Hopen) as (_ & a' & Ha' & [d Hd]).
  rewrite Ha in Ha'. injection Ha' as <-.
  exists (map (λ crit, bucket_of crit full) keys). split_and!.
  - unfold get. rewrite Hopen, Ha, Herr.
    rewrite (get_section_filtered _ _ _ _ _ d p raw dec) by done.
    by rewrite filter_events_spec.
  - intros d' Hd' Hcached. unfold get. rewrite Hopen, Ha, Herr.
    by rewrite (get_section_unfiltered _ _ _ _ d' p raw dec).
  - apply length_map.
  - intros i crit Hi. exists (bucket_of crit full). split_and!.
    + rewrite list_lookup_fmap. unfold criterion in *. by rewrite Hi.
    + done.
    + intros ev. by rewrite elem_of_bucket_of, matches_spec.
    + intros Hdata ev. rewrite elem_of_bucket_of, matches_spec.
      split; intros [Hin Hm]; (split; [done |]);
        apply list_elem_of_In, in_map_iff in Hin as [fields [<- _]];
        by apply (matches_present crit (map (λ kv, (kv.1, normalize E kv.2)) fields)).
    + apply filter_sublist_bucket_of.
    + apply bucket_of_single_match.
Qed.
End GetFiltered.

Lemma get_filter_buckets_witness :
  wf sample_state
  ∧ indexOf_found streaming GAME_EVENTS = true
  ∧ open sample_env (Handle 0) false sample_state = (Ret (Archive 0), sample_opened)
  ∧ heap sample_opened !! 0 = Some sample_loaded
  ∧ error_truthy (error sample_loaded) = false
  ∧ protocol sample_loaded = Some sample_protocol
  ∧ readFile (mpq sample_loaded) GAME_EVENTS = Ret (VArr sample_events)
  ∧ decoderMap GAME_EVENTS = Some decodeReplayGameEvents
  ∧ raises (decode_events sample_protocol decodeReplayGameEvents (VArr sample_events)) = None
  ∧ ∃ buckets,
      (get sample_env GAME_EVENTS (Handle 0)
           (Some [[("m_playerId", VNum 1)]; [("m_playerId", VNum 2)]]) sample_state).1
      = Ret (VArr (map VArr buckets))
      ∧ length buckets = 2.
Proof.
  assert (wf sample_state) as Hwf by (intros r Hr; discriminate Hr).
  split_and!; try reflexivity; [exact Hwf |].
  destruct (get_filter_buckets sample_env GAME_EVENTS (Handle 0)
              [[("m_playerId", VNum 1)]; [("m_playerId", VNum 2)]]
              sample_state 0 sample_opened sample_loaded sample_protocol
              (VArr sample_events) decodeReplayGameEvents)
    as (buckets & Hget & _ & Hlen & _); try reflexivity; [exact Hwf |].
  exists buckets. split; [exact (f_equal fst Hget) | exact Hlen].
Defined.

(** C1 as worded (each matching event appended to its bucket once) fails:
    with a criterion of two fields that both match the first event, the
    code appends that event twice, where the bucket of the wording has it
    once. *)
Lemma get_filter_appends_per_matching_field :
  (get sample_env GAME_EVENTS (Handle 0)
       (Some [[("_event", VStr "SCmd"); ("m_playerId", VNum 1)]]) sample_state).1
  = Ret (VArr [VArr [VObj [("_event", VStr "SCmd"); ("m_playerId", VNum 1)];
                     VObj [("_event", VStr "SCmd"); ("m_playerId", VNum 1)];
                     VObj [("_event", VStr "SCmd"); ("m_playerId", VNum 2)];
                     VObj [("_event", VStr "SChat"); ("m_playerId", VNum 1);
                           ("m_text", VStr "gg")]]])
  ∧ spec_bucket [("_event", VStr "SCmd"); ("m_playerId", VNum 1)]
                (map (normalize sample_env) sample_events)
    = [VObj [("_event", VStr "SCmd"); ("m_playerId", VNum 1)];
       VObj [("_event", VStr "SCmd"); ("m_playerId", VNum 2)];
       VObj [("_event", VStr "SChat"); ("m_playerId", VNum 1); ("m_text", VStr "gg")]]
  ∧ (get sample_env GAME_EVENTS (Handle 0)
         (Some [[("_event", VStr "SCmd"); ("m_playerId", VNum 1)]]) sample_state).1
    ≠ Ret (VArr [VArr (spec_bucket [("_event", VStr "SCmd"); ("m_playerId", VNum 1)]
                                   (map (normalize sample_env) sample_events))]).
Proof. split_and!; [by vm_compute | by vm_compute | by vm_compute]. Qed.

(** ** What the cache does and what it misses *)

Section Cache.
Variable E : env.

(** The slot answers for the filename of the archive it holds. *)
Lemma open_cached_filename st r a p :
  lastUsed st = Some r → heap st !! r = Some a → filename a = Some p →
  open E (Val (VStr p)) false st = (Ret (Archive r), st).
Proof.
  intros Hr Ha Hp. unfold open, cache_miss. rewrite Hr, Ha, Hp. simpl.
  by rewrite String.eqb_refl.
Qed.

(** Opening an absolute path twice in a row: the second call is a cache
    hit, with the same archive object and no call made. *)
Lemma open_absolute_path_twice st p r st1 :
  isAbsolute E p = true →
  open E (Val (VStr p)) false st = (Ret (Archive r), st1) →
  open E (Val (VStr p)) false st1 = (Ret (Archive r), st1).
Proof.
  intros Habs Hopen.
  destruct (cache_miss st (Val (VStr p)) false) eqn:Hmiss.
  - revert Hopen. unfold open at 1. rewrite Hmiss. unfold resolve. rewrite Habs.
    destruct (newMPQArchive E p) as [c | err]; [| done].
    cbn [heap]. rewrite lookup_app_r by done. rewrite Nat.sub_diag. cbn [lookup list_lookup].
    destruct (load_header E (fresh_archive c p)) as [[o a'] effs] eqn:Hload.
    apply load_header_frame in Hload as (_ & _ & Hfile).
    destruct o; [| done]. intros [= <- <-].
    eapply open_cached_filename; [done | | done].
    simpl. apply list_lookup_insert_eq. rewrite length_app. simpl. lia.
  - destruct (open_hit E _ _ _ Hmiss) as (r' & a & Hr & Ha & Heq & _ & Hopen').
    rewrite Hopen' in Hopen. by injection Hopen as <- <-.
Qed.

(** With the archive named by its cached filename, a section already
    decoded to a truthy value comes from the per-archive cache: the state
    is untouched, nothing is read and nothing is decoded. *)
Lemma get_cached_filename st r a p d archiveFile v :
  lastUsed st = Some r → heap st !! r = Some a → filename a = Some p →
  error_truthy (error a) = false →
  data a = Some d → d !! archiveFile = Some v → truthy v = true →
  get E archiveFile (Val (VStr p)) None st = (Ret v, st).
Proof.
  intros Hr Ha Hp Herr Hd Hv Ht. unfold get.
  rewrite (open_cached_filename st r a p) by done.
  rewrite Ha, Herr. unfold get_section.
  rewrite Hd, (data_read_cached _ _ _ Hv). simpl. by rewrite Ht.
Qed.

(** With the archive named by its cached filename, a filtered [get] of a
    streaming section leaves every archive object, and so the section
    cache, as it was. *)
Lemma get_filtered_cached_filename st r a p archiveFile keys o st' :
  lastUsed st = Some r → heap st !! r = Some a → filename a = Some p →
  indexOf_found streaming archiveFile = true →
  get E archiveFile (Val (VStr p)) (Some keys) st = (o, st') →
  heap st' = heap st ∧ lastUsed st' = lastUsed st.
Proof.
  intros Hr Ha Hp Hstream. unfold get.
  rewrite (open_cached_filename st r a p) by done. rewrite Ha.
  destruct (error_truthy (error a)); [by intros [= <- <-] |].
  unfold get_section. destruct (data a) as [d |]; [| by intros [= <- <-]].
  cbn [supplied negb]. rewrite andb_false_r, (streaming_not_single_shot _ Hstream), Hstream.
  intros Hget. repeat (case_match; simplify_eq); done.
Qed.

(** [load_header] starts with a bootstrap header decode and leaves at most
    the header in [data]. *)
Lemma load_header_resets a o a' effs :
  load_header E a = (o, a', effs) →
  (∃ rest, effs = Decode true decodeReplayHeader :: rest)
  ∧ ∀ archiveFile, archiveFile ≠ HEADER →
      default ∅ (data a') !! archiveFile = None.
Proof.
  unfold load_header, store_data. intros Hload.
  repeat (case_match; simplify_eq); simpl;
    (split; [eauto |]); intros f Hf;
    rewrite ?lookup_insert_ne by done; apply lookup_empty.
Qed.

(** An archive object handed to [open] is never served from the slot, even
    when it is the archive the slot holds: the header is decoded again and
    the sections decoded so far are dropped. *)
Lemma open_handle_reloads st r a noCache :
  heap st !! r = Some a →
  ∃ o a' rest,
    open E (Handle r) noCache st
    = (o, {| heap := <[r := a']> (heap st); lastUsed := Some r;
             trace := trace st ++ Decode true decodeReplayHeader :: rest |})
    ∧ (o = Ret (Archive r) ∨ ∃ e, o = Throw e)
    ∧ is_Some (data a')
    ∧ ∀ archiveFile, archiveFile ≠ HEADER →
        default ∅ (data a') !! archiveFile = None.
Proof.
  intros Ha. unfold open. rewrite cache_miss_handle. simpl. rewrite Ha.
  destruct (load_header E a) as [[o a'] effs] eqn:Hload.
  destruct (load_header_resets _ _ _ _ Hload) as ([rest ->] & Hreset).
  apply load_header_frame in Hload as (Hd & _ & _).
  destruct o; eexists _, a', rest; split_and!; eauto.
Qed.

(** So on an archive object the section cache never answers: a [get] of a
    section other than the header (of any name that [Object.prototype] does
    not define) that returns anything but [undefined] has read the member
    from the container during the call. *)
Lemma get_handle_reads st r a archiveFile keys v st' :
  heap st !! r = Some a →
  archiveFile ≠ HEADER →
  inherited archiveFile = false →
  get E archiveFile (Handle r) keys st = (Ret v, st') →
  v ≠ VUndefined →
  ∃ before later,
    trace st' = trace st ++ before ++ ReadFile archiveFile :: later.
Proof.
  intros Ha Hf Hown Hget Hv.
  destruct (open_handle_reloads st r a false Ha)
    as (o & a' & rest & Hopen & Ho & [d Hd] & Hreset).
  specialize (Hreset archiveFile Hf). rewrite Hd in Hreset. simpl in Hreset.
  revert Hget. unfold get. rewrite Hopen.
  destruct Ho as [-> | [e ->]]; [| done].
  cbn [heap]. rewrite list_lookup_insert_eq by (by eapply lookup_lt_Some).
  destruct (error_truthy (error a')); [intros [= <- <-]; done |].
  unfold get_section, commit, emit.
  rewrite Hd, data_read_section by done. rewrite Hreset. simpl.
  intros Hget. exists (Decode true decodeReplayHeader :: rest).
  repeat (case_match; simplify_eq); simpl;
    rewrite <- ?app_assoc; simpl; eauto.
Qed.
End Cache.

(** ** What the calls leave in place *)

Section Frames.
Variable E : env.

(** [get_section] either leaves the heap alone or writes the archive it
    was given back with one more section in [data]; the latter only with a
    protocol set. *)
Lemma get_section_heap archiveFile r a keys st o st' :
  get_section E archiveFile r a keys st = (o, st') →
  lastUsed st' = lastUsed st
  ∧ (heap st' = heap st
     ∨ ∃ a', heap st' = <[r := a']> (heap st)
             ∧ is_Some (protocol a) ∧ is_Some (data a')
             ∧ mpq a' = mpq a ∧ protocol a' = protocol a).
Proof.
  unfold get_section, commit, emit, store_data. intros Hget.
  repeat (case_match; simplify_eq); simpl; (split; [done |]);
    first [by left | right; eexists; split_and!; [done | eauto ..]].
Qed.

(** A filtered [get] of a streaming section writes nothing back. *)
Lemma get_section_filtered_frame archiveFile r a keys st o st' :
  indexOf_found streaming archiveFile = true →
  get_section E archiveFile r a (Some keys) st = (o, st') →
  heap st' = heap st ∧ lastUsed st' = lastUsed st.
Proof.
  intros Hstream. unfold get_section.
  destruct (data a) as [d |]; [| by intros [= <- <-]].
  cbn [supplied negb].
  rewrite andb_false_r, (streaming_not_single_shot _ Hstream), Hstream.
  intros Hget. repeat (case_match; simplify_eq); done.
Qed.

Lemma get_wf archiveFile archive keys st o st' :
  wf st → get E archiveFile archive keys st = (o, st') → wf st'.
Proof.
  intros Hwf. unfold get.
  destruct (open E archive false st) as [[[r | e] | e] st1] eqn:Hopen;
    pose proof (open_wf E _ _ _ _ _ Hwf Hopen) as Hwf1.
  - destruct (heap st1 !! r) as [a |] eqn:Ha; [| by intros [= <- <-]].
    destruct (error_truthy (error a)); [by intros [= <- <-] |].
    intros (Hslot & [Hheap | (a' & Hheap & _ & Hd & _)])%get_section_heap;
      intros r' Hr'; rewrite Hslot in Hr'; rewrite Hheap.
    + by apply Hwf1.
    + destruct (Hwf1 r' Hr') as (a0 & Ha0 & Hd0).
      destruct (decide (r = r')) as [<- |].
      * exists a'. split; [| done].
        apply list_lookup_insert_eq. by eapply lookup_lt_Some.
      * exists a0. by rewrite list_lookup_insert_ne.
  - by intros [= <- <-].
  - by intros [= <- <-].
Qed.

(** An archive of an unsupported build stays one through any [open]. *)
Lemma open_keeps_unsupported file noCache st o st' r a build :
  heap st !! r = Some a → unsupported_build E a build →
  open E file noCache st = (o, st') →
  ∃ a', heap st' !! r = Some a' ∧ unsupported_build E a' build.
Proof.
  intros Ha Hunsup. unfold open.
  destruct (cache_miss st file noCache).
  - destruct (resolve E file st) as [res st1] eqn:Hres.
    destruct (resolve_frame E _ _ _ _ Hres) as (_ & Hkeep & _).
    apply Hkeep in Ha.
    destruct res as [r0 | e]; [| intros [= <- <-]; eauto].
    destruct (heap st1 !! r0) as [a0 |] eqn:Ha0; [| intros [= <- <-]; eauto].
    destruct (load_header E a0) as [[o' a0'] effs] eqn:Hload.
    assert (∃ a', <[r0:=a0']> (heap st1) !! r = Some a' ∧ unsupported_build E a' build)
      as Hgoal.
    { destruct (decide (r0 = r)) as [-> |].
      - rewrite Ha in Ha0. injection Ha0 as <-.
        destruct (load_header_unsupported E a build Hunsup) as (a2 & Hload2 & _ & Hunsup2).
        rewrite Hload2 in Hload. injection Hload as <- <- <-.
        exists a2. split; [| done].
        apply list_lookup_insert_eq. by eapply lookup_lt_Some.
      - exists a. by rewrite list_lookup_insert_ne. }
    destruct o'; intros [= <- <-]; exact Hgoal.
  - destruct (lastUsed st); intros [= <- <-]; eauto.
Qed.

(** ... and through any [get]. *)
Lemma get_keeps_unsupported archiveFile archive keys st o st' r a build :
  heap st !! r = Some a → unsupported_build E a build →
  get E archiveFile archive keys st = (o, st') →
  ∃ a', heap st' !! r = Some a' ∧ unsupported_build E a' build.
Proof.
  intros Ha Hunsup. unfold get.
  destruct (open E archive false st) as [[[r0 | e] | e] st1] eqn:Hopen;
    destruct (open_keeps_unsupported _ _ _ _ _ _ _ _ Ha Hunsup Hopen)
      as (a1 & Ha1 & Hunsup1).
  - destruct (heap st1 !! r0) as [a0 |] eqn:Ha0; [| intros [= <- <-]; eauto].
    destruct (error_truthy (error a0)); [intros [= <- <-]; eauto |].
    intros (_ & [Hheap | (a' & Hheap & Hp & _)])%get_section_heap; rewrite Hheap.
    + eauto.
    + destruct (decide (r0 = r)) as [-> |].
      * rewrite Ha1 in Ha0. injection Ha0 as <-.
        destruct Hunsup1 as (? & ? & ? & _ & _ & _ & _ & Hnone).
        rewrite Hnone in Hp. by destruct Hp.
      * exists a1. by rewrite list_lookup_insert_ne.
  - intros [= <- <-]; eauto.
  - intros [= <- <-]; eauto.
Qed.

Lemma run_calls_keep_unsupported calls : ∀ st r a build,
  heap st !! r = Some a → unsupported_build E a build →
  ∃ a', heap (run_calls E calls st) !! r = Some a' ∧ unsupported_build E a' build.
Proof.
  induction calls as [| c calls IH]; intros st r a build Ha Hunsup; [eauto |].
  unfold run_calls. cbn [fold_left].
  assert (∃ a1, heap (run_call E c st) !! r = Some a1 ∧ unsupported_build E a1 build)
    as (a1 & Ha1 & Hunsup1).
  { destruct c as [file noCache | archiveFile archive keys]; simpl.
    - destruct (open E file noCache st) as [o st'] eqn:Hopen.
      eapply open_keeps_unsupported; eauto.
    - destruct (get E archiveFile archive keys st) as [o st'] eqn:Hget.
      eapply get_keeps_unsupported; eauto. }
  exact (IH _ _ _ _ Ha1 Hunsup1).
Qed.

(** Off the header, a section entry of the per-archive cache survives an
    [open] unchanged or not at all. *)
Lemma open_cached_section file noCache st o st' r archiveFile :
  archiveFile ≠ HEADER →
  open E file noCache st = (o, st') →
  cached_section st' r archiveFile = cached_section st r archiveFile
  ∨ cached_section st' r archiveFile = None.
Proof.
  intros Hf. unfold open.
  destruct (cache_miss st file noCache).
  - destruct (resolve E file st) as [res st1] eqn:Hres.
    assert (cached_section st1 r archiveFile = cached_section st r archiveFile
            ∨ cached_section st1 r archiveFile = None) as Hst1.
    { revert Hres. unfold resolve. destruct file as [v | r0].
      - destruct v; try (intros [= <- <-]; by left).
        destruct (newMPQArchive E _) as [c | err]; intros [= <- <-]; [| by left].
        unfold cached_section. simpl.
        destruct (decide (r < length (heap st))%nat) as [Hlt | Hge].
        + left. by rewrite lookup_app_l.
        + right. rewrite lookup_app_r by lia.
          by destruct (r - length (heap st))%nat.
      - intros [= <- <-]. by left. }
    destruct res as [r0 | e]; [| by intros [= <- <-]].
    destruct (heap st1 !! r0) as [a0 |] eqn:Ha0; [| by intros [= <- <-]].
    destruct (load_header E a0) as [[o' a0'] effs] eqn:Hload.
    destruct (load_header_resets E _ _ _ _ Hload) as (_ & Hreset).
    assert (cached_section
              {| heap := <[r0:=a0']> (heap st1); lastUsed := Some r0;
                 trace := trace st1 ++ effs |} r archiveFile
            = cached_section st1 r archiveFile
            ∨ cached_section
                {| heap := <[r0:=a0']> (heap st1); lastUsed := Some r0;
                   trace := trace st1 ++ effs |} r archiveFile = None) as Hst2.
    { unfold cached_section. simpl.
      destruct (decide (r0 = r)) as [-> |].
      - right. rewrite list_lookup_insert_eq by (by eapply lookup_lt_Some). simpl.
        specialize (Hreset archiveFile Hf). by destruct (data a0').
      - left. by rewrite list_lookup_insert_ne. }
    destruct o'; intros [= <- <-];
      destruct Hst1 as [<- | Hnone], Hst2 as [Heq | Hnone2]; try (by right); try (by left);
      rewrite Heq; by right.
  - destruct (lastUsed st); intros [= <- <-]; by left.
Qed.
End Frames.

(** ** Archives of an unsupported build *)

Section Unsupported.
Variable E : env.

(** X28.  Opening an archive whose header carries a build with no protocol
    module sets its error state to [protocol <build> not found].  After
    that, whatever calls are made in between, every [get] on the archive
    object returns [undefined] without throwing and logs exactly one
    diagnostic; it reads no member of the container and calls no decoder of
    a resolved protocol, but the re-open of line 107 decodes the header once
    more with the bootstrap protocol on every call. *)
Theorem unsupported_build_get_undefined file noCache st r st1 a build :
  cache_miss st file noCache = true →
  resolve E file st = (Archive r, st1) →
  heap st1 !! r = Some a →
  unsupported_build E a build →
  let msg := "protocol " +:+ to_string E build +:+ " not found" in
  ∃ st2 a2,
    open E file noCache st = (Ret (Archive r), st2)
    ∧ heap st2 !! r = Some a2
    ∧ error a2 = Some (ErrString msg)
    ∧ ∀ calls archiveFile keys,
        ∃ st4,
          get E archiveFile (Handle r) keys (run_calls E calls st2)
          = (Ret VUndefined, st4)
          ∧ trace st4
            = trace (run_calls E calls st2)
              ++ [Decode true decodeReplayHeader;
                  LoggerLog ("Heroprotocol: " +:+ msg)].
Proof.
  intros Hmiss Hres Ha Hunsup msg.
  destruct (open_unsupported E _ _ _ _ _ _ _ Hmiss Hres Ha Hunsup)
    as (st2 & a2 & Hopen & Ha2 & Herr & Hunsup2).
  exists st2, a2. split_and!; [done | done | done |].
  intros calls archiveFile keys.
  destruct (run_calls_keep_unsupported E calls _ _ _ _ Ha2 Hunsup2) as (a3 & Ha3 & Hunsup3).
  exact (get_unsupported E _ _ _ _ archiveFile keys Ha3 Hunsup3).
Qed.

(** A filtered [get] of a streaming section never leaves its result in the
    section cache: the entry of every archive object is afterwards what it
    was before, or gone. *)
Lemma get_filtered_never_caches archiveFile archive keys st o st' r :
  indexOf_found streaming archiveFile = true →
  get E archiveFile archive (Some keys) st = (o, st') →
  cached_section st' r archiveFile = cached_section st r archiveFile
  ∨ cached_section st' r archiveFile = None.
Proof.
  intros Hstream. unfold get.
  assert (archiveFile ≠ HEADER) as Hf.
  { intros ->. discriminate Hstream. }
  destruct (open E archive false st) as [[[r0 | e] | e] st1] eqn:Hopen;
    pose proof (open_cached_section E _ _ _ _ _ r archiveFile Hf Hopen) as Hst1.
  - destruct (heap st1 !! r0) as [a0 |] eqn:Ha0; [| by intros [= <- <-]].
    destruct (error_truthy (error a0)); [by intros [= <- <-] |].
    intros [Hheap _]%get_section_filtered_frame; [| done].
    unfold cached_section in *. by rewrite Hheap.
  - by intros [= <- <-].
  - by intros [= <- <-].
Qed.
End Unsupported.

(** ** The statements on the sample environment *)

Lemma sample_state_wf : wf sample_state.
Proof. intros r Hr. discriminate Hr. Qed.

Lemma unsupported_build_get_undefined_witness :
  cache_miss sample_state (Handle 1) false = true
  ∧ resolve sample_env (Handle 1) sample_state = (Archive 1, sample_state)
  ∧ heap sample_state !! 1 = Some (sample_handle 99999)
  ∧ unsupported_build sample_env (sample_handle 99999) (VNum 99999)
  ∧ ∃ st2 a2 st4,
      open sample_env (Handle 1) false sample_state = (Ret (Archive 1), st2)
      ∧ heap st2 !! 1 = Some a2
      ∧ error a2 = Some (ErrString "protocol 99999 not found")
      ∧ get sample_env DETAILS (Handle 1) None
            (run_calls sample_env [CallGet GAME_EVENTS (Handle 0) None] st2)
        = (Ret VUndefined, st4)
      ∧ trace st4
        = trace (run_calls sample_env [CallGet GAME_EVENTS (Handle 0) None] st2)
          ++ [Decode true decodeReplayHeader;
              LoggerLog "Heroprotocol: protocol 99999 not found"].
Proof.
  assert (unsupported_build sample_env (sample_handle 99999) (VNum 99999)) as Hunsup.
  { eexists _, _, _. split_and!; reflexivity. }
  split_and!; [reflexivity | reflexivity | reflexivity | exact Hunsup |].
  destruct (unsupported_build_get_undefined sample_env (Handle 1) false sample_state 1
              sample_state (sample_handle 99999) (VNum 99999)
              eq_refl eq_refl eq_refl Hunsup)
    as (st2 & a2 & Hopen & Ha2 & Herr & Hget).
  destruct (Hget [CallGet GAME_EVENTS (Handle 0) None] DETAILS None)
    as (st4 & Hget4 & Htrace).
  exists st2, a2, st4.
  split_and!; [exact Hopen | exact Ha2 | exact Herr | exact Hget4 | exact Htrace].
Defined.

Lemma open_error_leaves_slot_witness :
  open sample_env (Val (VStr "missing.StormReplay")) false sample_path_opened
  = (Ret (ErrorValue (Exn "ENOENT: no such file")),
     emit [NewMPQArchive "/cwd/missing.StormReplay"] sample_path_opened)
  ∧ lastUsed (emit [NewMPQArchive "/cwd/missing.StormReplay"] sample_path_opened)
    = lastUsed sample_path_opened
  ∧ (open sample_env (Val (VStr "/cwd/a.StormReplay")) false
          (emit [NewMPQArchive "/cwd/missing.StormReplay"] sample_path_opened)).1
    = Ret (Archive 2).
Proof.
  assert (open sample_env (Val (VStr "missing.StormReplay")) false sample_path_opened
          = (Ret (ErrorValue (Exn "ENOENT: no such file")),
             emit [NewMPQArchive "/cwd/missing.StormReplay"] sample_path_opened))
    as Hfail by reflexivity.
  destruct (open_error_leaves_slot sample_env _ _ _ _ _ Hfail)
    as (Hslot & Hheap & _ & Hagain).
  split_and!; [exact Hfail | exact Hslot |].
  destruct (heap sample_path_opened !! 2) as [a |] eqn:Ha; [| discriminate Ha].
  rewrite (Hagain 2 a "/cwd/a.StormReplay" eq_refl Ha); [reflexivity |].
  revert Ha. vm_compute. intros [= <-]. reflexivity.
Defined.

(** The same filter on the field the specification's scenario uses: two
    criteria on [m_playerId], five events, buckets of two and of one event,
    in decode order. *)
Example get_filter_scenario :
  (get sample_env GAME_EVENTS (Handle 0)
       (Some [[("m_playerId", VNum 1)]; [("m_playerId", VNum 2)]]) sample_state).1
  = Ret (VArr [VArr [VObj [("_event", VStr "SCmd"); ("m_playerId", VNum 1)];
                     VObj [("_event", VStr "SChat"); ("m_playerId", VNum 1);
                           ("m_text", VStr "gg")]];
               VArr [VObj [("_event", VStr "SCmd"); ("m_playerId", VNum 2)]]]).
Proof. by vm_compute. Qed.

(** An expected value of [undefined] matches every event that lacks the
    field. *)
Example get_filter_undefined_expected :
  (get sample_env GAME_EVENTS (Handle 0)
       (Some [[("m_text", VUndefined)]]) sample_state).1
  = Ret (VArr [VArr [VObj [("_event", VStr "SCmd"); ("m_playerId", VNum 1)];
                     VObj [("_event", VStr "SCmd"); ("m_playerId", VNum 2)];
                     VObj [("_event", VStr "SPing"); ("m_playerId", VNum 3)];
                     VObj [("_event", VStr "SPing"); ("m_playerId", VNum 4)]]]).
Proof. by vm_compute. Qed.

(** C2 (a second [open] of the same identifier, without bypass, returns the
    cached archive with no re-read and no re-decode) does not hold of the
    code for an archive object or a relative path.  [open] on the archive
    object the slot already holds returns the same object, but decodes the
    header again with both protocols and drops the sections decoded so far.
    [open] on a relative path twice in a row reads the container twice and
    returns two different archive objects. *)
Lemma open_twice_not_cached :
  lastUsed sample_details_cached = Some 0
  ∧ cached_section sample_details_cached 0 DETAILS = Some (VObj [("m_title", VStr "Hi")])
  ∧ (open sample_env (Handle 0) false sample_details_cached).1 = Ret (Archive 0)
  ∧ trace (after (open sample_env (Handle 0) false) sample_details_cached)
    = trace sample_details_cached
      ++ [Decode true decodeReplayHeader; Decode false decodeReplayHeader]
  ∧ cached_section (after (open sample_env (Handle 0) false) sample_details_cached)
                   0 DETAILS = None
  ∧ (open sample_env (Val (VStr "a.StormReplay")) false sample_state).1
    = Ret (Archive 2)
  ∧ (open sample_env (Val (VStr "a.StormReplay")) false
          (after (open sample_env (Val (VStr "a.StormReplay")) false) sample_state)).1
    = Ret (Archive 3)
  ∧ trace (after (open sample_env (Val (VStr "a.StormReplay")) false)
                 (after (open sample_env (Val (VStr "a.StormReplay")) false) sample_state))
    = [NewMPQArchive "/cwd/a.StormReplay";
       Decode true decodeReplayHeader; Decode false decodeReplayHeader;
       NewMPQArchive "/cwd/a.StormReplay";
       Decode true decodeReplayHeader; Decode false decodeReplayHeader].
Proof. split_and!; by vm_compute. Qed.

(** C5 (a second unfiltered [get] of a section returns the cached value
    with no second read and no re-decode) does not hold of the code for an
    archive object: the second [get] of the details on the archive that
    [open] returned decodes the header again, then reads the container
    member and decodes it again. *)
Lemma get_twice_decodes_again :
  (get sample_env DETAILS (Handle 0) None sample_details_cached).1
  = Ret (VObj [("m_title", VStr "Hi")])
  ∧ trace (after (get sample_env DETAILS (Handle 0) None) sample_details_cached)
    = trace sample_details_cached
      ++ [Decode true decodeReplayHeader; Decode false decodeReplayHeader;
          ReadFile DETAILS; Decode false decodeReplayDetails].
Proof. split_and!; by vm_compute. Qed.

(** C6 (a filtered [get] leaves the section's cache entry as it was) does
    not hold of the code for an archive object: the filtered result is not
    stored, but the full decode cached before the call is gone after it. *)
Lemma get_filtered_drops_cache_entry :
  cached_section sample_events_cached 0 GAME_EVENTS
  = Some (VArr (map (normalize sample_env) sample_events))
  ∧ cached_section
      (after (get sample_env GAME_EVENTS (Handle 0) (Some [[("m_playerId", VNum 1)]]))
             sample_events_cached)
      0 GAME_EVENTS
    = None.
Proof. split_and!; by vm_compute. Qed.

(** C8 (an argument that is neither a string nor an archive object gives an
    [Error] value) does not hold of the code for [undefined] when the slot
    holds an archive object that has no filename: [open(undefined)] is
    answered from the cache with that archive. *)
Lemma open_undefined_served_from_cache :
  open sample_env (Val VUndefined) false sample_opened
  = (Ret (Archive 0), sample_opened).
Proof. by vm_compute. Qed.


(** * Further properties of the module *)

(** ** The normalizer, in depth *)

Section NormalizerMore.
Variable buffer_toString : list byte → string.
#[local] Abbreviation parseStrings := (parseStrings buffer_toString).

(** X1.  Whatever the input, the normalized value has no [Buffer] left at
    any depth. *)
Theorem parseStrings_leaves_no_buffer v : buffer_free (parseStrings v) = true.
Proof. apply parseStrings_buffer_free. Qed.

(** X2.  A value with no [Buffer] at any depth comes back from the
    normalizer unchanged, falsy leaves included. *)
Theorem parseStrings_buffer_free_unchanged v :
  buffer_free v = true → parseStrings v = v.
Proof. apply parseStrings_fixed. Qed.

End NormalizerMore.

Lemma parseStrings_buffer_free_unchanged_witness :
  buffer_free (VObj [("m_list", VArr [VNum 0; VStr ""; VNull]); ("m_ok", VBool false)]) = true
  ∧ parseStrings String.string_of_list_byte
      (VObj [("m_list", VArr [VNum 0; VStr ""; VNull]); ("m_ok", VBool false)])
    = VObj [("m_list", VArr [VNum 0; VStr ""; VNull]); ("m_ok", VBool false)].
Proof.
  split; [reflexivity |].
  apply (parseStrings_buffer_free_unchanged String.string_of_list_byte). reflexivity.
Defined.

(** ** More on [open] *)

Section OpenMore.
Variable E : env.

Lemma cache_miss_bypass st file : cache_miss st file true = true.
Proof.
  unfold cache_miss. destruct (lastUsed st) as [r |]; [| done].
  destruct (heap st !! r); [apply orb_true_r | done].
Qed.

Lemma load_header_effects a o a' effs :
  load_header E a = (o, a', effs) → Forall opening_effect effs.
Proof.
  unfold load_header. intros Hload.
  repeat (case_match; simplify_eq); repeat constructor.
Qed.


(** X4.  Opening the same absolute path twice in a row, without bypass: the
    second call returns the archive object of the first and changes
    nothing, making no call at all. *)
Theorem open_absolute_path_served_from_cache st p r st1 :
  isAbsolute E p = true →
  open E (Val (VStr p)) false st = (Ret (Archive r), st1) →
  open E (Val (VStr p)) false st1 = (Ret (Archive r), st1).
Proof. apply open_absolute_path_twice. Qed.

(** X5.  An archive object handed to [open] is never answered from the slot,
    bypass or not: the header is decoded again with the bootstrap protocol,
    the object takes the slot, and its section cache is reset to at most the
    header. *)
Theorem open_archive_object_reloads st r a noCache :
  heap st !! r = Some a →
  ∃ o a' rest,
    open E (Handle r) noCache st
    = (o, {| heap := <[r := a']> (heap st); lastUsed := Some r;
             trace := trace st ++ Decode true decodeReplayHeader :: rest |})
    ∧ (o = Ret (Archive r) ∨ ∃ e, o = Throw e)
    ∧ ∀ archiveFile, archiveFile ≠ HEADER →
        cached_section
          {| heap := <[r := a']> (heap st); lastUsed := Some r;
             trace := trace st ++ Decode true decodeReplayHeader :: rest |}
          r archiveFile = None.
Proof.
  intros Ha.
  destruct (open_handle_reloads E st r a noCache Ha)
    as (o & a' & rest & Hopen & Ho & [d Hd] & Hreset).
  exists o, a', rest. split_and!; [done | done |].
  intros f Hf. unfold cached_section. simpl.
  rewrite list_lookup_insert_eq by (by eapply lookup_lt_Some). simpl.
  specialize (Hreset f Hf). rewrite Hd in *. done.
Qed.

(** X6.  [open] on anything but an archive object never touches an archive
    object that exists already: a path gets a new object, everything else
    gets none. *)
Theorem open_value_keeps_objects v noCache st o st' :
  open E (Val v) noCache st = (o, st') →
  ∀ r a, heap st !! r = Some a → heap st' !! r = Some a.
Proof.
  unfold open. destruct (cache_miss st (Val v) noCache).
  - unfold resolve.
    destruct v; try (intros [= <- <-]; done).
    destruct (newMPQArchive E _) as [c | err]; [| intros [= <- <-]; done].
    cbn [heap trace]. rewrite lookup_app_r by done. rewrite Nat.sub_diag.
    cbn [lookup list_lookup].
    destruct (load_header E _) as [[o' a'] effs].
    intros Hopen r a Hr.
    assert (<[length (heap st):=a']> (heap st ++ [fresh_archive c
              (if isAbsolute E s then s else join_cwd E s)]) !! r = Some a) as Hkeep.
    { apply lookup_lt_Some in Hr as Hlt.
      rewrite list_lookup_insert_ne by lia. by apply lookup_app_l_Some. }
    destruct o'; injection Hopen as <- <-; exact Hkeep.
  - destruct (lastUsed st); intros [= <- <-]; done.
Qed.

(** X7.  With bypass, a path is always read again: the container reader is
    called on the absolute path, a new archive object is made for it at the
    end of the heap and takes the slot, and its header is decoded, whatever
    the slot held. *)
Theorem open_bypass_reads_again s st c :
  newMPQArchive E (if isAbsolute E s then s else join_cwd E s) = Ret c →
  ∃ o a' rest,
    open E (Val (VStr s)) true st
    = (o, {| heap := heap st ++ [a'];
             lastUsed := Some (length (heap st));
             trace := trace st
                      ++ NewMPQArchive (if isAbsolute E s then s else join_cwd E s)
                         :: Decode true decodeReplayHeader :: rest |})
    ∧ (o = Ret (Archive (length (heap st))) ∨ ∃ e, o = Throw e)
    ∧ mpq a' = c
    ∧ filename a' = Some (if isAbsolute E s then s else join_cwd E s).
Proof.
  intros Hnew. unfold open. rewrite cache_miss_bypass. unfold resolve. rewrite Hnew.
  cbn [heap trace lastUsed]. rewrite lookup_app_r by done. rewrite Nat.sub_diag.
  cbn [lookup list_lookup].
  destruct (load_header E _) as [[o' a'] effs] eqn:Hload.
  destruct (load_header_resets E _ _ _ _ Hload) as ([rest ->] & _).
  apply load_header_frame in Hload as (_ & Hmpq & Hfile).
  assert (<[length (heap st):=a']> (heap st ++ [fresh_archive c
            (if isAbsolute E s then s else join_cwd E s)]) = heap st ++ [a']) as ->.
  { rewrite insert_app_r_alt by done. by rewrite Nat.sub_diag. }
  rewrite <- app_assoc. simpl.
  destruct o'; eexists _, a', rest; split_and!; eauto.
Qed.


(** X9.  A replay whose header blob the bootstrap protocol cannot decode
    makes [open] throw the decoder's error; the new archive object has taken
    the slot all the same, and a [get] by its absolute path of any section,
    and of any name that is not a property name of [Object.prototype], then
    returns [undefined] with no diagnostic, no read and no change. *)
Theorem open_corrupt_header_raises s noCache st c e :
  cache_miss st (Val (VStr s)) noCache = true →
  newMPQArchive E (if isAbsolute E s then s else join_cwd E s) = Ret c →
  decode (protocol29406 E) decodeReplayHeader (userDataHeader_content c) = Throw e →
  ∃ st',
    open E (Val (VStr s)) noCache st = (Throw e, st')
    ∧ lastUsed st' = Some (length (heap st))
    ∧ ∀ archiveFile keys,
        inherited archiveFile = false →
        get E archiveFile (Val (VStr (if isAbsolute E s then s else join_cwd E s)))
            keys st'
        = (Ret VUndefined, st').
Proof.
  intros Hmiss Hnew Hdec. eexists. split_and!.
  - unfold open. rewrite Hmiss. unfold resolve. rewrite Hnew.
    cbn [heap trace lastUsed]. rewrite lookup_app_r by done. rewrite Nat.sub_diag.
    cbn [lookup list_lookup]. unfold load_header. simpl. rewrite Hdec. reflexivity.
  - reflexivity.
  - intros archiveFile keys Hown.
    set (path := if isAbsolute E s then s else join_cwd E s).
    set (a' := set_data (Some ∅) (fresh_archive c path)).
    assert (<[length (heap st):=a']> (heap st ++ [fresh_archive c path])
            !! length (heap st) = Some a') as Ha'.
    { apply list_lookup_insert_eq. rewrite length_app. simpl. lia. }
    unfold get. erewrite (open_cached_filename E _ (length (heap st)) a' path);
      [| reflexivity | exact Ha' | reflexivity].
    cbn [heap]. rewrite Ha'. simpl. unfold get_section. simpl.
    rewrite data_read_section by done. by rewrite lookup_empty.
Qed.
End OpenMore.

(** ** More on [get] *)

Section GetMore.
Variable E : env.

Lemma buffer_free_events (events : list event) :
  buffer_free (VArr (map (λ ev, normalize E (VObj ev)) events)) = true.
Proof.
  change (forallb buffer_free (map (λ ev, normalize E (VObj ev)) events) = true).
  rewrite forallb_forall. intros x [ev [<- _]]%in_map_iff.
  apply parseStrings_buffer_free.
Qed.

(** Writing a section back and reading the cache. *)
Lemma cached_section_commit st r a archiveFile v effs :
  heap st !! r = Some a →
  cached_section (commit r (store_data archiveFile v a) effs st) r archiveFile = Some v.
Proof.
  intros Ha. unfold cached_section, commit, store_data. simpl.
  rewrite list_lookup_insert_eq by (by eapply lookup_lt_Some). simpl.
  apply lookup_insert_eq.
Qed.

(** The single-shot branch (lines 119-123) when the decoder returns. *)
Lemma get_section_single_shot archiveFile r a keys st d p raw dec v :
  indexOf_found single_shot archiveFile = true →
  data a = Some d →
  truthy (default VUndefined (d !! archiveFile)) && negb (supplied keys) = false →
  protocol a = Some p →
  readFile (mpq a) archiveFile = Ret raw →
  decoderMap archiveFile = Some dec →
  decode p dec raw = Ret v →
  get_section E archiveFile r a keys st
  = (Ret (normalize E v),
     commit r (store_data archiveFile (normalize E v) a)
            [ReadFile archiveFile; Decode false dec] st).
Proof.
  intros Hsingle Hd Hcached Hp Hread Hdec Hv. unfold get_section.
  rewrite Hd, data_read_section by section_name.
  by rewrite Hcached, Hp, Hsingle, Hread, Hdec, Hv.
Qed.

(** X10.  A single-shot section (details, initdata, attributes events) that
    is not answered from the section cache is read from the container,
    decoded by the decoder of that section, normalized, stored in the
    section cache and returned; a filterSpec, if given, is ignored and does
    not prevent the caching. *)
Theorem get_single_shot_decodes_and_caches
    archiveFile archive keys st r st1 a d p raw dec v :
  indexOf_found single_shot archiveFile = true →
  open E archive false st = (Ret (Archive r), st1) →
  heap st1 !! r = Some a →
  error_truthy (error a) = false →
  data a = Some d →
  truthy (default VUndefined (d !! archiveFile)) && negb (supplied keys) = false →
  protocol a = Some p →
  readFile (mpq a) archiveFile = Ret raw →
  decoderMap archiveFile = Some dec →
  decode p dec raw = Ret v →
  ∃ st',
    get E archiveFile archive keys st = (Ret (normalize E v), st')
    ∧ cached_section st' r archiveFile = Some (normalize E v)
    ∧ trace st' = trace st1 ++ [ReadFile archiveFile; Decode false dec]
    ∧ lastUsed st' = lastUsed st1.
Proof.
  intros Hsingle Hopen Ha Herr Hd Hcached Hp Hread Hdec Hv. eexists. split_and!.
  - unfold get. rewrite Hopen, Ha, Herr.
    by apply get_section_single_shot with (d := d) (p := p) (raw := raw).
  - by apply cached_section_commit.
  - reflexivity.
  - reflexivity.
Qed.

(** The state a cached archive is in after one more section was stored. *)
Lemma get_cached_after_commit st r a path archiveFile v effs keys :
  lastUsed st = Some r → heap st !! r = Some a → filename a = Some path →
  error_truthy (error a) = false →
  get E archiveFile (Val (VStr path)) keys
      (commit r (store_data archiveFile v a) effs st)
  = get_section E archiveFile r (store_data archiveFile v a) keys
      (commit r (store_data archiveFile v a) effs st).
Proof.
  intros Hr Ha Hpath Herr.
  assert (heap (commit r (store_data archiveFile v a) effs st) !! r
          = Some (store_data archiveFile v a)) as Ha'.
  { simpl. apply list_lookup_insert_eq. by eapply lookup_lt_Some. }
  unfold get.
  rewrite (open_cached_filename E _ r (store_data archiveFile v a) path) by done.
  rewrite Ha'. change (error (store_data archiveFile v a)) with (error a).
  by rewrite Herr.
Qed.

(** X11.  Decoding a single-shot section and then asking for it again by
    the filename the archive is cached under: when the decoded value is
    truthy, the second [get] returns the same value and leaves the state as
    it is, with nothing read and nothing decoded. *)
Theorem get_single_shot_then_cached
    archiveFile archive keys st r st1 a d p raw dec v path :
  indexOf_found single_shot archiveFile = true →
  open E archive false st = (Ret (Archive r), st1) →
  lastUsed st1 = Some r →
  heap st1 !! r = Some a →
  filename a = Some path →
  error_truthy (error a) = false →
  data a = Some d →
  truthy (default VUndefined (d !! archiveFile)) && negb (supplied keys) = false →
  protocol a = Some p →
  readFile (mpq a) archiveFile = Ret raw →
  decoderMap archiveFile = Some dec →
  decode p dec raw = Ret v →
  truthy (normalize E v) = true →
  ∃ st',
    get E archiveFile archive keys st = (Ret (normalize E v), st')
    ∧ get E archiveFile (Val (VStr path)) None st' = (Ret (normalize E v), st').
Proof.
  intros Hsingle Hopen Hr Ha Hpath Herr Hd Hcached Hp Hread Hdec Hv Htruthy.
  eexists. split.
  - unfold get. rewrite Hopen, Ha, Herr.
    by apply get_section_single_shot with (d := d) (p := p) (raw := raw).
  - rewrite get_cached_after_commit by done.
    unfold get_section, store_data, data_read. simpl. rewrite Hd. simpl.
    rewrite lookup_insert_eq. simpl. by rewrite Htruthy.
Qed.

(** X12.  The section cache only answers with truthy values: a single-shot
    section whose decoded value is falsy ([null], [0], the empty string,
    [false]) is stored, but every later [get], also by the cached filename,
    reads and decodes it again. *)
Theorem get_falsy_value_decoded_again
    archiveFile archive keys st r st1 a d p raw dec v path :
  indexOf_found single_shot archiveFile = true →
  open E archive false st = (Ret (Archive r), st1) →
  lastUsed st1 = Some r →
  heap st1 !! r = Some a →
  filename a = Some path →
  error_truthy (error a) = false →
  data a = Some d →
  truthy (default VUndefined (d !! archiveFile)) && negb (supplied keys) = false →
  protocol a = Some p →
  readFile (mpq a) archiveFile = Ret raw →
  decoderMap archiveFile = Some dec →
  decode p dec raw = Ret v →
  truthy (normalize E v) = false →
  ∃ st' st'',
    get E archiveFile archive keys st = (Ret (normalize E v), st')
    ∧ cached_section st' r archiveFile = Some (normalize E v)
    ∧ get E archiveFile (Val (VStr path)) None st' = (Ret (normalize E v), st'')
    ∧ trace st'' = trace st' ++ [ReadFile archiveFile; Decode false dec].
Proof.
  intros Hsingle Hopen Hr Ha Hpath Herr Hd Hcached Hp Hread Hdec Hv Hfalsy.
  eexists _, _. split_and!.
  - unfold get. rewrite Hopen, Ha, Herr.
    by apply get_section_single_shot with (d := d) (p := p) (raw := raw).
  - by apply cached_section_commit.
  - rewrite get_cached_after_commit by done.
    apply get_section_single_shot
      with (d := <[archiveFile := normalize E v]> d) (p := p) (raw := raw); try done.
    + unfold store_data. simpl. by rewrite Hd.
    + rewrite lookup_insert_eq. simpl. by rewrite Hfalsy.
  - reflexivity.
Qed.

(** X13.  On an archive whose protocol is resolved, the raw lobby data is
    read and normalized without any decoder being called, stored in the
    section cache and returned. *)
Theorem get_raw_data_passthrough archive keys st r st1 a d p raw :
  open E archive false st = (Ret (Archive r), st1) →
  heap st1 !! r = Some a →
  error_truthy (error a) = false →
  data a = Some d →
  truthy (default VUndefined (d !! RAW_DATA)) && negb (supplied keys) = false →
  protocol a = Some p →
  readFile (mpq a) RAW_DATA = Ret raw →
  ∃ st',
    get E RAW_DATA archive keys st = (Ret (normalize E raw), st')
    ∧ cached_section st' r RAW_DATA = Some (normalize E raw)
    ∧ trace st' = trace st1 ++ [ReadFile RAW_DATA].
Proof.
  intros Hopen Ha Herr Hd Hcached Hp Hread. eexists. split_and!.
  - unfold get. rewrite Hopen, Ha, Herr. unfold get_section.
    rewrite Hd, data_read_section by section_name. rewrite Hcached, Hp.
    change (indexOf_found single_shot RAW_DATA) with false.
    change (indexOf_found streaming RAW_DATA) with false.
    change (String.eqb RAW_DATA RAW_DATA) with true.
    cbv iota. rewrite Hread. reflexivity.
  - by apply cached_section_commit.
  - reflexivity.
Qed.

(** X14.  When the decoder of a single-shot section throws, [get] throws
    the same error; the member was read, nothing is stored, and the slot and
    every archive object are as [open] left them. *)
Theorem get_decode_failure_propagates
    archiveFile archive keys st r st1 a d p raw dec e :
  indexOf_found single_shot archiveFile = true →
  open E archive false st = (Ret (Archive r), st1) →
  heap st1 !! r = Some a →
  error_truthy (error a) = false →
  data a = Some d →
  truthy (default VUndefined (d !! archiveFile)) && negb (supplied keys) = false →
  protocol a = Some p →
  readFile (mpq a) archiveFile = Ret raw →
  decoderMap archiveFile = Some dec →
  decode p dec raw = Throw e →
  ∃ st',
    get E archiveFile archive keys st = (Throw e, st')
    ∧ heap st' = heap st1
    ∧ lastUsed st' = lastUsed st1
    ∧ trace st' = trace st1 ++ [ReadFile archiveFile; Decode false dec].
Proof.
  intros Hsingle Hopen Ha Herr Hd Hcached Hp Hread Hdec He. eexists. split_and!.
  - unfold get. rewrite Hopen, Ha, Herr. unfold get_section.
    rewrite Hd, data_read_section by section_name.
    rewrite Hcached, Hp, Hsingle, Hread, Hdec, He. reflexivity.
  - reflexivity.
  - reflexivity.
  - reflexivity.
Qed.

(** X15.  When the generator of a streaming section throws part-way through
    an unfiltered decode, [get] throws the same error, but the events
    yielded before the throw stay in the section cache; a later [get] by the
    cached filename returns that partial list from the cache, reading
    nothing. *)
Theorem get_stream_failure_caches_partial
    archiveFile archive st r st1 a d p raw dec e path :
  indexOf_found streaming archiveFile = true →
  open E archive false st = (Ret (Archive r), st1) →
  lastUsed st1 = Some r →
  heap st1 !! r = Some a →
  filename a = Some path →
  error_truthy (error a) = false →
  data a = Some d →
  truthy (default VUndefined (d !! archiveFile)) = false →
  protocol a = Some p →
  readFile (mpq a) archiveFile = Ret raw →
  decoderMap archiveFile = Some dec →
  raises (decode_events p dec raw) = Some e →
  let partial := VArr (map (λ ev, normalize E (VObj ev))
                           (yielded (decode_events p dec raw))) in
  ∃ st',
    get E archiveFile archive None st = (Throw e, st')
    ∧ cached_section st' r archiveFile = Some partial
    ∧ get E archiveFile (Val (VStr path)) None st' = (Ret partial, st').
Proof.
  intros Hstream Hopen Hr Ha Hpath Herr Hd Hcached Hp Hread Hdec He partial.
  eexists. split_and!.
  - unfold get. rewrite Hopen, Ha, Herr. unfold get_section.
    rewrite Hd, data_read_section by section_name.
    rewrite Hcached, Hp, (streaming_not_single_shot _ Hstream), Hstream.
    simpl. rewrite Hread, Hdec, He. reflexivity.
  - by apply cached_section_commit.
  - rewrite get_cached_after_commit by done.
    unfold get_section, store_data, data_read. simpl. by rewrite lookup_insert_eq.
Qed.

(** X16.  When the container cannot give the member of a streaming section,
    an unfiltered [get] throws the reader's error, but the empty array of
    line 144 is already in the section cache; a later [get] by the cached
    filename returns that empty array, reading nothing. *)
Theorem get_stream_read_failure_caches_empty
    archiveFile archive st r st1 a d p e path :
  indexOf_found streaming archiveFile = true →
  open E archive false st = (Ret (Archive r), st1) →
  lastUsed st1 = Some r →
  heap st1 !! r = Some a →
  filename a = Some path →
  error_truthy (error a) = false →
  data a = Some d →
  truthy (default VUndefined (d !! archiveFile)) = false →
  protocol a = Some p →
  readFile (mpq a) archiveFile = Throw e →
  ∃ st',
    get E archiveFile archive None st = (Throw e, st')
    ∧ cached_section st' r archiveFile = Some (VArr [])
    ∧ get E archiveFile (Val (VStr path)) None st' = (Ret (VArr []), st').
Proof.
  intros Hstream Hopen Hr Ha Hpath Herr Hd Hcached Hp Hread.
  eexists. split_and!.
  - unfold get. rewrite Hopen, Ha, Herr. unfold get_section.
    rewrite Hd, data_read_section by section_name.
    rewrite Hcached, Hp, (streaming_not_single_shot _ Hstream), Hstream.
    simpl. rewrite Hread. reflexivity.
  - by apply cached_section_commit.
  - rewrite get_cached_after_commit by done.
    unfold get_section, store_data, data_read. simpl. by rewrite lookup_insert_eq.
Qed.

(** X17.  [get] on anything [open] turns into an [Error] value returns
    [undefined] and logs once; the diagnostic reads [Heroprotocol: undefined]
    whatever the error was, and the slot and the archive objects are
    untouched. *)
Theorem get_rejected_argument archiveFile archive keys st e st1 :
  open E archive false st = (Ret (ErrorValue e), st1) →
  get E archiveFile archive keys st
  = (Ret VUndefined, emit [LoggerLog "Heroprotocol: undefined"] st1)
  ∧ heap st1 = heap st
  ∧ lastUsed st1 = lastUsed st.
Proof.
  intros Hopen. split_and!.
  - unfold get. by rewrite Hopen.
  - apply open_error_inv in Hopen as [_ Hres].
    by destruct (resolve_frame E _ _ _ _ Hres) as (_ & _ & ->).
  - apply open_error_inv in Hopen as [_ Hres].
    by destruct (resolve_frame E _ _ _ _ Hres) as (-> & _ & _).
Qed.
End GetMore.

(** ** [parseFile], [parseHeader] and [get] side by side *)

Section Standalone.
Variable E : env.

(** X18.  [parseFile] on the raw bytes of a member gives what an unfiltered
    [get] of that section gives on an archive of the same build when the
    section is not cached: the same value, or the same error thrown. *)
Theorem parseFile_agrees_with_get archiveFile archive st r st1 a d p raw build :
  archiveFile ∈ six_sections →
  open E archive false st = (Ret (Archive r), st1) →
  heap st1 !! r = Some a →
  error_truthy (error a) = false →
  data a = Some d →
  truthy (default VUndefined (d !! archiveFile)) = false →
  protocol a = Some p →
  require_protocol E (to_string E build) = Ret p →
  readFile (mpq a) archiveFile = Ret raw →
  (get E archiveFile archive None st).1 = parseFile E archiveFile raw build.
Proof.
  intros Hsix Hopen Ha Herr Hd Hcached Hp Hreq Hread.
  unfold get. rewrite Hopen, Ha, Herr. unfold get_section, parseFile.
  rewrite Hd, data_read_section by section_name.
  rewrite Hcached, Hp, Hreq. cbn [andb].
  unfold six_sections in Hsix. rewrite elem_of_app in Hsix.
  destruct (indexOf_found single_shot archiveFile) eqn:Hsingle.
  - rewrite Hread. destruct (decoderMap archiveFile) as [dec |]; [| reflexivity].
    by destruct (decode p dec raw).
  - destruct Hsix as [Hsix | Hsix].
    { apply indexOf_found_elem_of in Hsix. congruence. }
    apply indexOf_found_elem_of in Hsix. rewrite Hsix, Hread.
    destruct (decoderMap archiveFile) as [dec |]; [| reflexivity].
    by destruct (raises (decode_events p dec raw)).
Qed.

(** X19.  Whatever [parseFile] returns is normalized: it has no [Buffer] at
    any depth. *)
Theorem parseFile_result_normalized filename buffer build v :
  parseFile E filename buffer build = Ret v → buffer_free v = true.
Proof.
  unfold parseFile. intros Hparse.
  repeat (case_match; simplify_eq);
    first [done | apply parseStrings_buffer_free | apply buffer_free_events].
Qed.

(** X20.  For an archive of a build with no protocol module, the header
    [open] leaves in the section cache is the one [parseHeader] gives for
    the archive's header blob. *)
Theorem parseHeader_matches_open file noCache st r st1 a build :
  cache_miss st file noCache = true →
  resolve E file st = (Archive r, st1) →
  heap st1 !! r = Some a →
  unsupported_build E a build →
  ∃ header st2,
    parseHeader E (userDataHeader_content (mpq a)) = Ret header
    ∧ open E file noCache st = (Ret (Archive r), st2)
    ∧ cached_section st2 r HEADER = Some header.
Proof.
  intros Hmiss Hres Ha (raw & m_version & err & Hdec & Hver & Hbuild & Hreq & Hproto).
  exists (normalize E raw). eexists. split_and!.
  - unfold parseHeader. by rewrite Hdec.
  - unfold open. rewrite Hmiss, Hres, Ha. unfold load_header.
    rewrite Hdec. simpl. rewrite Hver, Hbuild, Hreq. simpl. rewrite Hproto.
    reflexivity.
  - unfold cached_section. simpl.
    rewrite list_lookup_insert_eq by (by eapply lookup_lt_Some). simpl.
    apply lookup_insert_eq.
Qed.
End Standalone.

(** ** What the calls do to the collaborators *)

Section Effects.
Variable E : env.

(** The calls of [open] are container reads and header decodes. *)
Lemma open_trace file noCache st o st' :
  open E file noCache st = (o, st') →
  ∃ effs, trace st' = trace st ++ effs ∧ Forall opening_effect effs.
Proof.
  unfold open. destruct (cache_miss st file noCache).
  - destruct (resolve E file st) as [res st1] eqn:Hres.
    assert (∃ effs1, trace st1 = trace st ++ effs1 ∧ Forall opening_effect effs1)
      as (effs1 & Htr1 & Hall1).
    { revert Hres. unfold resolve. destruct file as [v | r0].
      - destruct v; try (intros [= <- <-]; exists []; by rewrite app_nil_r).
        destruct (newMPQArchive E _); intros [= <- <-]; eexists [_];
          (split; [reflexivity | by repeat constructor]).
      - intros [= <- <-]. exists []. by rewrite app_nil_r. }
    destruct res as [r0 | e]; [| intros [= <- <-]; eauto].
    destruct (heap st1 !! r0) as [a0 |]; [| intros [= <- <-]; eauto].
    destruct (load_header E a0) as [[o' a'] effs] eqn:Hload.
    apply load_header_effects in Hload.
    assert (∃ effs2, trace st1 ++ effs = trace st ++ effs2 ∧ Forall opening_effect effs2)
      as Hgoal.
    { exists (effs1 ++ effs). split; [by rewrite Htr1, app_assoc | by apply Forall_app]. }
    destruct o'; intros [= <- <-]; exact Hgoal.
  - destruct (lastUsed st); intros [= <- <-]; exists []; by rewrite app_nil_r.
Qed.

(** X21.  Of the container reader, the decoders and the logger, [open] only
    ever calls the container reader on a path and the header decoder: it
    never reads a member of a container, never calls the decoder of another
    section and never logs.  (Loading the protocol module is not among the
    recorded calls.) *)
Theorem open_effects file noCache st o st' :
  open E file noCache st = (o, st') →
  ∃ effs, trace st' = trace st ++ effs ∧ Forall opening_effect effs.
Proof. apply open_trace. Qed.

(** What [get_section] adds to the calls. *)
Lemma get_section_effects archiveFile r a keys st o st' :
  get_section E archiveFile r a keys st = (o, st') →
  ∃ post,
    trace st' = trace st ++ post
    ∧ (post = []
       ∨ (archiveFile ∈ six_sections ++ [RAW_DATA]
          ∧ (post = [ReadFile archiveFile]
             ∨ ∃ dec, decoderMap archiveFile = Some dec
                      ∧ post = [ReadFile archiveFile; Decode false dec]))).
Proof.
  unfold get_section, commit, emit. intros Hget.
  assert (indexOf_found single_shot archiveFile = true → archiveFile ∈ six_sections ++ [RAW_DATA])
    as Hin1.
  { intros H%indexOf_found_elem_of. unfold six_sections. rewrite !elem_of_app. auto. }
  assert (indexOf_found streaming archiveFile = true → archiveFile ∈ six_sections ++ [RAW_DATA])
    as Hin2.
  { intros H%indexOf_found_elem_of. unfold six_sections. rewrite !elem_of_app. auto. }
  assert (String.eqb archiveFile RAW_DATA = true → archiveFile ∈ six_sections ++ [RAW_DATA])
    as Hin3.
  { intros ->%String.eqb_eq. rewrite elem_of_app. right. constructor. }
  repeat (case_match; simplify_eq); simpl;
    first [ exists []; split; [by rewrite app_nil_r | by left]
          | eexists; split; [reflexivity |]; right; split; eauto ].
Qed.

(** X22.  What a [get] asks of its collaborators: after the calls of its
    [open], it either does nothing more, or logs exactly once and returns
    [undefined], or reads the one member it was asked for, and then calls at
    most the decoder of that section.  It reads only the six decodable
    sections and the raw lobby data. *)
Theorem get_effects archiveFile archive keys st o st' :
  get E archiveFile archive keys st = (o, st') →
  ∃ pre post,
    trace st' = trace st ++ pre ++ post
    ∧ Forall opening_effect pre
    ∧ (post = []
       ∨ (∃ msg, post = [LoggerLog msg] ∧ o = Ret VUndefined)
       ∨ (archiveFile ∈ six_sections ++ [RAW_DATA]
          ∧ (post = [ReadFile archiveFile]
             ∨ ∃ dec, decoderMap archiveFile = Some dec
                      ∧ post = [ReadFile archiveFile; Decode false dec]))).
Proof.
  unfold get.
  destruct (open E archive false st) as [o1 st1] eqn:Hopen.
  destruct (open_trace _ _ _ _ _ Hopen) as (pre & Htr & Hpre).
  destruct o1 as [[r | e] | e].
  - destruct (heap st1 !! r) as [a |]; [| intros [= <- <-]].
    + destruct (error_truthy (error a)).
      * intros [= <- <-]. exists pre, [LoggerLog (diagnostic (error a))].
        split_and!; [simpl; by rewrite Htr, app_assoc | done | right; left; eauto].
      * intros (post & Htr' & Hpost)%get_section_effects.
        exists pre, post. split_and!; [by rewrite Htr', Htr, app_assoc | done |].
        destruct Hpost as [-> | Hpost]; [by left | right; by right].
    + exists pre, []. split_and!; [by rewrite app_nil_r | done | by left].
  - intros [= <- <-]. exists pre, [LoggerLog (diagnostic None)].
    split_and!; [simpl; by rewrite Htr, app_assoc | done | right; left; eauto].
  - intros [= <- <-]. exists pre, []. split_and!; [by rewrite app_nil_r | done | by left].
Qed.
End Effects.

(** ** The filter, stream by stream and criterion by criterion *)

Section FilterMore.
Variable E : env.

Lemma bucket_of_app crit full1 full2 :
  bucket_of crit (full1 ++ full2) = bucket_of crit full1 ++ bucket_of crit full2.
Proof. unfold bucket_of. apply bind_app. Qed.

(** X23.  Each bucket depends on its own criterion only: filtering with two
    lists of criteria one after the other gives the buckets of the first
    list followed by the buckets of the second. *)
Theorem filter_events_criteria_app keys1 keys2 events :
  filter_events E (keys1 ++ keys2) events
  = filter_events E keys1 events ++ filter_events E keys2 events.
Proof. rewrite !filter_events_spec. apply map_app. Qed.

(** X24.  Filtering a stream in two parts: the bucket of every criterion for
    the whole stream is its bucket for the first part followed by its bucket
    for the second part. *)
Theorem filter_events_stream_app keys events1 events2 :
  filter_events E keys (events1 ++ events2)
  = zip_with app (filter_events E keys events1) (filter_events E keys events2).
Proof.
  rewrite !filter_events_spec.
  induction keys as [| crit keys IH]; [done |].
  cbn [map zip_with]. rewrite IH. f_equal.
  by rewrite map_app, bucket_of_app.
Qed.

(** X25.  The size of bucket [i] is the number of matching fields of
    criterion [i] summed over the normalized events, so it can exceed the
    number of events; a field matches when [event[key]], read through the
    prototype chain, is strictly equal to the expected value.  With no
    criterion there is no bucket, and a criterion with no field gets an
    empty bucket. *)
Theorem filter_events_sizes keys events :
  map length (filter_events E keys events)
  = map (λ crit, sum_list (map (λ ev, matching_fields crit (normalize E (VObj ev)))
                               events))
        keys
  ∧ filter_events E [] events = []
  ∧ filter_events E [[]] events = [[]].
Proof.
  assert (∀ crit full,
            length (bucket_of crit full) = sum_list (map (matching_fields crit) full))
    as Hlen.
  { intros crit full. induction full as [| ev full IH]; [done |].
    rewrite bucket_of_cons, length_app, length_replicate, IH. done. }
  rewrite !filter_events_spec. split_and!.
  - rewrite map_map. apply map_ext. intros crit. by rewrite Hlen, map_map.
  - done.
  - cbn [map]. f_equal. induction events as [| ev events IH]; [done |].
    cbn [map]. by rewrite bucket_of_cons, IH.
Qed.
End FilterMore.

(** ** Invariants of the section caches *)

Section Invariants.
Variable E : env.

Lemma load_header_normalized a o a' effs :
  load_header E a = (o, a', effs) →
  ∀ d archiveFile v, data a' = Some d → d !! archiveFile = Some v →
    buffer_free v = true.
Proof.
  unfold load_header, store_data. intros Hload d f v Hd Hv.
  repeat (case_match; simplify_eq); simpl in *; simplify_eq;
    repeat (apply lookup_insert_Some in Hv as [[_ <-] | [_ Hv]]);
    first [apply parseStrings_buffer_free | by rewrite lookup_empty in Hv].
Qed.

Lemma cache_normalized_emit st effs :
  cache_normalized st → cache_normalized (emit effs st).
Proof. done. Qed.

Lemma cache_normalized_insert st r a' effs slot :
  cache_normalized st →
  (∀ d archiveFile v, data a' = Some d → d !! archiveFile = Some v →
     buffer_free v = true) →
  cache_normalized {| heap := <[r := a']> (heap st); lastUsed := slot;
                      trace := trace st ++ effs |}.
Proof.
  intros Hinv Ha' r' a d f v Hr' Hd Hv. simpl in Hr'.
  destruct (decide (r = r')) as [<- |].
  - destruct (decide (r < length (heap st))%nat).
    + rewrite list_lookup_insert_eq in Hr' by done. injection Hr' as <-. eauto.
    + rewrite list_insert_ge in Hr' by lia. eauto.
  - rewrite list_lookup_insert_ne in Hr' by done. eauto.
Qed.

Lemma cache_normalized_commit st r a d archiveFile v effs :
  cache_normalized st → heap st !! r = Some a → data a = Some d →
  buffer_free v = true →
  cache_normalized (commit r (store_data archiveFile v a) effs st).
Proof.
  intros Hinv Ha Hd Hv. apply cache_normalized_insert; [done |].
  unfold store_data. simpl. rewrite Hd. simpl. intros d' f v' [= <-] Hv'.
  apply lookup_insert_Some in Hv' as [[_ <-] | [_ Hv']]; [done | eauto].
Qed.

Lemma open_cache_normalized file noCache st o st' :
  cache_normalized st → open E file noCache st = (o, st') → cache_normalized st'.
Proof.
  intros Hinv. unfold open. destruct (cache_miss st file noCache).
  - destruct (resolve E file st) as [res st1] eqn:Hres.
    assert (cache_normalized st1) as Hinv1.
    { revert Hres. unfold resolve. destruct file as [v | r0].
      - destruct v; try (by intros [= <- <-]).
        destruct (newMPQArchive E _); intros [= <- <-]; [| done].
        intros r a1 d f v Hr Hd Hv. simpl in Hr.
        apply lookup_app_Some in Hr as [Hr | [_ Hr]]; [eauto |].
        destruct (r - length (heap st))%nat; [| done].
        injection Hr as <-. done.
      - by intros [= <- <-]. }
    destruct res as [r0 | e]; [| by intros [= <- <-]].
    destruct (heap st1 !! r0) as [a0 |]; [| by intros [= <- <-]].
    destruct (load_header E a0) as [[o' a'] effs] eqn:Hload.
    pose proof (cache_normalized_insert st1 r0 a' effs (Some r0) Hinv1
                  (load_header_normalized _ _ _ _ Hload)) as Hinv2.
    destruct o'; by intros [= <- <-].
  - destruct (lastUsed st); by intros [= <- <-].
Qed.

Lemma buffer_free_buckets keys (events : list event) :
  buffer_free (VArr (map VArr (filter_events E keys events))) = true.
Proof.
  rewrite filter_events_spec.
  change (forallb buffer_free
            (map VArr (map (λ crit, bucket_of crit
                                      (map (λ ev, normalize E (VObj ev)) events)) keys))
          = true).
  rewrite forallb_forall. intros x [bucket [<- Hb]]%in_map_iff.
  apply in_map_iff in Hb as [crit [<- _]].
  change (forallb buffer_free
            (bucket_of crit (map (λ ev, normalize E (VObj ev)) events)) = true).
  rewrite forallb_forall. intros x Hx%list_elem_of_In.
  apply elem_of_bucket_of in Hx as [Hx _].
  apply list_elem_of_In, in_map_iff in Hx as [ev [<- _]].
  apply parseStrings_buffer_free.
Qed.

Lemma get_section_normalized archiveFile r a keys st o st' :
  cache_normalized st → heap st !! r = Some a →
  get_section E archiveFile r a keys st = (o, st') →
  cache_normalized st' ∧ ∀ v, o = Ret v → buffer_free v = true.
Proof.
  intros Hinv Ha. unfold get_section. intros Hget.
  destruct (data a) as [d |] eqn:Hd; [| by simplify_eq].
  assert (∀ v, d !! archiveFile = Some v → buffer_free v = true) as Hcached by eauto.
  repeat (case_match; simplify_eq);
    (split;
     [ first [ done
             | by apply cache_normalized_emit
             | eapply cache_normalized_commit; eauto;
               first [ apply parseStrings_buffer_free | apply buffer_free_events | done ] ]
     | intros v' [= <-];
       first [ done
             | apply parseStrings_buffer_free
             | apply buffer_free_events
             | apply buffer_free_buckets
             | by (unfold data_read, from_prototype;
                   destruct (d !! archiveFile);
                   [eauto | by destruct (inherited archiveFile)]) ] ]).
Qed.

Lemma get_cache_normalized archiveFile archive keys st o st' :
  cache_normalized st → get E archiveFile archive keys st = (o, st') →
  cache_normalized st' ∧ ∀ v, o = Ret v → buffer_free v = true.
Proof.
  intros Hinv. unfold get.
  destruct (open E archive false st) as [[[r | e] | e] st1] eqn:Hopen;
    pose proof (open_cache_normalized _ _ _ _ _ Hinv Hopen) as Hinv1.
  - destruct (heap st1 !! r) as [a |] eqn:Ha; [| by intros [= <- <-]].
    destruct (error_truthy (error a)).
    + intros [= <- <-]. split; [done | by intros v [= <-]].
    + by apply get_section_normalized.
  - intros [= <- <-]. split; [done | by intros v [= <-]].
  - by intros [= <- <-].
Qed.

(** X26.  From a state whose section caches hold normalized values only,
    whatever [get] returns, cached or freshly decoded, filtered or not, has
    no [Buffer] at any depth. *)
Theorem get_result_normalized archiveFile archive keys st v st' :
  cache_normalized st →
  get E archiveFile archive keys st = (Ret v, st') →
  buffer_free v = true.
Proof.
  intros Hinv Hget.
  destruct (get_cache_normalized _ _ _ _ _ _ Hinv Hget) as [_ Hv]. by apply Hv.
Qed.

(** X27.  Two invariants hold through any sequence of [open] and [get]
    calls: the slot, when occupied, names an archive object whose section
    cache exists, and every section cache holds normalized values only. *)
Theorem run_calls_keep_invariants calls : ∀ st,
  wf st → cache_normalized st →
  wf (run_calls E calls st) ∧ cache_normalized (run_calls E calls st).
Proof.
  induction calls as [| c calls IH]; intros st Hwf Hinv; [done |].
  unfold run_calls. cbn [fold_left]. apply IH.
  - destruct c as [file noCache | archiveFile archive keys]; simpl.
    + destruct (open E file noCache st) as [o st'] eqn:Hopen.
      by eapply open_wf.
    + destruct (get E archiveFile archive keys st) as [o st'] eqn:Hget.
      by eapply get_wf.
  - destruct c as [file noCache | archiveFile archive keys]; simpl.
    + destruct (open E file noCache st) as [o st'] eqn:Hopen.
      by eapply open_cache_normalized.
    + destruct (get E archiveFile archive keys st) as [o st'] eqn:Hget.
      by eapply get_cache_normalized.
Qed.
End Invariants.

(** ** The further properties on the sample environments *)

Lemma open_absolute_path_served_from_cache_witness :
  isAbsolute sample_env "/cwd/a.StormReplay" = true
  ∧ open sample_env (Val (VStr "/cwd/a.StormReplay")) false sample_state
    = (Ret (Archive 2), sample_path_opened)
  ∧ open sample_env (Val (VStr "/cwd/a.StormReplay")) false sample_path_opened
    = (Ret (Archive 2), sample_path_opened).
Proof.
  split_and!; [reflexivity | reflexivity |].
  apply (open_absolute_path_served_from_cache sample_env sample_state
           "/cwd/a.StormReplay" 2 sample_path_opened); reflexivity.
Defined.

Lemma open_archive_object_reloads_witness :
  heap sample_state !! 0 = Some (sample_handle 29406)
  ∧ cached_section (after (open sample_env (Handle 0) true) sample_state) 0 DETAILS
    = None.
Proof.
  split; [reflexivity |].
  destruct (open_archive_object_reloads sample_env sample_state 0
              (sample_handle 29406) true eq_refl)
    as (o & a' & rest & Hopen & _ & Hreset).
  unfold after. rewrite Hopen. apply Hreset. discriminate.
Defined.

Lemma open_value_keeps_objects_witness :
  heap sample_opened !! 0 = Some sample_loaded
  ∧ heap (after (open sample_env (Val (VStr "b.StormReplay")) false) sample_opened) !! 0
    = Some sample_loaded.
Proof.
  split; [reflexivity |].
  apply (open_value_keeps_objects sample_env (VStr "b.StormReplay") false sample_opened
           _ _ (surjective_pairing _) 0 sample_loaded).
  reflexivity.
Defined.

Lemma open_bypass_reads_again_witness :
  newMPQArchive sample_env
    (if isAbsolute sample_env "a.StormReplay" then "a.StormReplay"
     else join_cwd sample_env "a.StormReplay")
  = Ret (sample_container 29406)
  ∧ lastUsed (after (open sample_env (Val (VStr "a.StormReplay")) true)
                    sample_path_opened)
    = Some 3.
Proof.
  split; [reflexivity |].
  destruct (open_bypass_reads_again sample_env "a.StormReplay" sample_path_opened
              (sample_container 29406) eq_refl)
    as (o & a' & rest & Hopen & _).
  unfold after. rewrite Hopen. reflexivity.
Defined.


Lemma open_corrupt_header_raises_witness :
  cache_miss empty_state (Val (VStr "corrupt.StormReplay")) false = true
  ∧ newMPQArchive strict_env
      (if isAbsolute strict_env "corrupt.StormReplay" then "corrupt.StormReplay"
       else join_cwd strict_env "corrupt.StormReplay")
    = Ret corrupt_container
  ∧ decode (protocol29406 strict_env) decodeReplayHeader
           (userDataHeader_content corrupt_container)
    = Throw (Exn "unexpected end of data")
  ∧ ∃ st',
      open strict_env (Val (VStr "corrupt.StormReplay")) false empty_state
      = (Throw (Exn "unexpected end of data"), st')
      ∧ get strict_env DETAILS (Val (VStr "/cwd/corrupt.StormReplay")) None st'
        = (Ret VUndefined, st').
Proof.
  split_and!; [reflexivity | reflexivity | reflexivity |].
  destruct (open_corrupt_header_raises strict_env "corrupt.StormReplay" false
              empty_state corrupt_container (Exn "unexpected end of data")
              eq_refl eq_refl eq_refl)
    as (st' & Hopen & _ & Hget).
  exists st'. split; [exact Hopen | exact (Hget DETAILS None eq_refl)].
Defined.

Lemma get_single_shot_decodes_and_caches_witness :
  indexOf_found single_shot DETAILS = true
  ∧ open sample_env (Val (VStr "/cwd/a.StormReplay")) false sample_path_opened
    = (Ret (Archive 2), sample_path_opened)
  ∧ heap sample_path_opened !! 2 = Some sample_path_loaded
  ∧ error_truthy (error sample_path_loaded) = false
  ∧ data sample_path_loaded = Some sample_path_data
  ∧ truthy (default VUndefined (sample_path_data !! DETAILS)) && negb (supplied None)
    = false
  ∧ protocol sample_path_loaded = Some sample_protocol
  ∧ readFile (mpq sample_path_loaded) DETAILS = Ret (VObj [("m_title", VBuf [x48; x69])])
  ∧ decoderMap DETAILS = Some decodeReplayDetails
  ∧ decode sample_protocol decodeReplayDetails (VObj [("m_title", VBuf [x48; x69])])
    = Ret (VObj [("m_title", VBuf [x48; x69])])
  ∧ ∃ st',
      get sample_env DETAILS (Val (VStr "/cwd/a.StormReplay")) None sample_path_opened
      = (Ret (VObj [("m_title", VStr "Hi")]), st')
      ∧ cached_section st' 2 DETAILS = Some (VObj [("m_title", VStr "Hi")]).
Proof.
  split_and!; try reflexivity.
  destruct (get_single_shot_decodes_and_caches sample_env DETAILS
              (Val (VStr "/cwd/a.StormReplay")) None sample_path_opened 2
              sample_path_opened sample_path_loaded sample_path_data sample_protocol
              (VObj [("m_title", VBuf [x48; x69])]) decodeReplayDetails
              (VObj [("m_title", VBuf [x48; x69])]))
    as (st' & Hget & Hcached & _); try reflexivity.
  exists st'. split; [exact Hget | exact Hcached].
Defined.

Lemma get_single_shot_then_cached_witness :
  indexOf_found single_shot DETAILS = true
  ∧ open sample_env (Val (VStr "/cwd/a.StormReplay")) false sample_path_opened
    = (Ret (Archive 2), sample_path_opened)
  ∧ lastUsed sample_path_opened = Some 2
  ∧ heap sample_path_opened !! 2 = Some sample_path_loaded
  ∧ filename sample_path_loaded = Some "/cwd/a.StormReplay"
  ∧ error_truthy (error sample_path_loaded) = false
  ∧ data sample_path_loaded = Some sample_path_data
  ∧ truthy (default VUndefined (sample_path_data !! DETAILS)) && negb (supplied None)
    = false
  ∧ protocol sample_path_loaded = Some sample_protocol
  ∧ readFile (mpq sample_path_loaded) DETAILS = Ret (VObj [("m_title", VBuf [x48; x69])])
  ∧ decoderMap DETAILS = Some decodeReplayDetails
  ∧ decode sample_protocol decodeReplayDetails (VObj [("m_title", VBuf [x48; x69])])
    = Ret (VObj [("m_title", VBuf [x48; x69])])
  ∧ truthy (normalize sample_env (VObj [("m_title", VBuf [x48; x69])])) = true
  ∧ ∃ st',
      get sample_env DETAILS (Val (VStr "/cwd/a.StormReplay")) None sample_path_opened
      = (Ret (VObj [("m_title", VStr "Hi")]), st')
      ∧ get sample_env DETAILS (Val (VStr "/cwd/a.StormReplay")) None st'
        = (Ret (VObj [("m_title", VStr "Hi")]), st').
Proof.
  split_and!; try reflexivity.
  destruct (get_single_shot_then_cached sample_env DETAILS
              (Val (VStr "/cwd/a.StormReplay")) None sample_path_opened 2
              sample_path_opened sample_path_loaded sample_path_data sample_protocol
              (VObj [("m_title", VBuf [x48; x69])]) decodeReplayDetails
              (VObj [("m_title", VBuf [x48; x69])]) "/cwd/a.StormReplay")
    as (st' & Hget & Hagain); try reflexivity.
  exists st'. split; [exact Hget | exact Hagain].
Defined.

Lemma get_falsy_value_decoded_again_witness :
  indexOf_found single_shot ATTRIBUTES_EVENTS = true
  ∧ open sample_env (Val (VStr "/cwd/a.StormReplay")) false sample_path_opened
    = (Ret (Archive 2), sample_path_opened)
  ∧ lastUsed sample_path_opened = Some 2
  ∧ heap sample_path_opened !! 2 = Some sample_path_loaded
  ∧ filename sample_path_loaded = Some "/cwd/a.StormReplay"
  ∧ error_truthy (error sample_path_loaded) = false
  ∧ data sample_path_loaded = Some sample_path_data
  ∧ truthy (default VUndefined (sample_path_data !! ATTRIBUTES_EVENTS))
    && negb (supplied None) = false
  ∧ protocol sample_path_loaded = Some sample_protocol
  ∧ readFile (mpq sample_path_loaded) ATTRIBUTES_EVENTS = Ret VNull
  ∧ decoderMap ATTRIBUTES_EVENTS = Some decodeReplayAttributesEvents
  ∧ decode sample_protocol decodeReplayAttributesEvents VNull = Ret VNull
  ∧ truthy (normalize sample_env VNull) = false
  ∧ ∃ st' st'',
      get sample_env ATTRIBUTES_EVENTS (Val (VStr "/cwd/a.StormReplay")) None
          sample_path_opened
      = (Ret VNull, st')
      ∧ get sample_env ATTRIBUTES_EVENTS (Val (VStr "/cwd/a.StormReplay")) None st'
        = (Ret VNull, st'')
      ∧ trace st''
        = trace st' ++ [ReadFile ATTRIBUTES_EVENTS;
                        Decode false decodeReplayAttributesEvents].
Proof.
  split_and!; try reflexivity.
  destruct (get_falsy_value_decoded_again sample_env ATTRIBUTES_EVENTS
              (Val (VStr "/cwd/a.StormReplay")) None sample_path_opened 2
              sample_path_opened sample_path_loaded sample_path_data sample_protocol
              VNull decodeReplayAttributesEvents VNull "/cwd/a.StormReplay")
    as (st' & st'' & Hget & _ & Hagain & Htrace); try reflexivity.
  exists st', st''. split_and!; [exact Hget | exact Hagain | exact Htrace].
Defined.

Lemma get_raw_data_passthrough_witness :
  open strict_env (Val (VStr "/cwd/truncated.StormReplay")) false truncated_opened
  = (Ret (Archive 0), truncated_opened)
  ∧ heap truncated_opened !! 0 = Some truncated_loaded
  ∧ error_truthy (error truncated_loaded) = false
  ∧ data truncated_loaded = Some truncated_data
  ∧ truthy (default VUndefined (truncated_data !! RAW_DATA)) && negb (supplied None)
    = false
  ∧ protocol truncated_loaded = Some strict_protocol
  ∧ readFile (mpq truncated_loaded) RAW_DATA = Ret (VBuf [])
  ∧ ∃ st',
      get strict_env RAW_DATA (Val (VStr "/cwd/truncated.StormReplay")) None
          truncated_opened
      = (Ret (VStr ""), st')
      ∧ trace st' = trace truncated_opened ++ [ReadFile RAW_DATA].
Proof.
  split_and!; try reflexivity.
  destruct (get_raw_data_passthrough strict_env
              (Val (VStr "/cwd/truncated.StormReplay")) None truncated_opened 0
              truncated_opened truncated_loaded truncated_data strict_protocol (VBuf []))
    as (st' & Hget & _ & Htrace); try reflexivity.
  exists st'. split; [exact Hget | exact Htrace].
Defined.

Lemma get_decode_failure_propagates_witness :
  indexOf_found single_shot DETAILS = true
  ∧ open strict_env (Val (VStr "/cwd/truncated.StormReplay")) false truncated_opened
    = (Ret (Archive 0), truncated_opened)
  ∧ heap truncated_opened !! 0 = Some truncated_loaded
  ∧ error_truthy (error truncated_loaded) = false
  ∧ data truncated_loaded = Some truncated_data
  ∧ truthy (default VUndefined (truncated_data !! DETAILS)) && negb (supplied None)
    = false
  ∧ protocol truncated_loaded = Some strict_protocol
  ∧ readFile (mpq truncated_loaded) DETAILS = Ret VNull
  ∧ decoderMap DETAILS = Some decodeReplayDetails
  ∧ decode strict_protocol decodeReplayDetails VNull
    = Throw (Exn "unexpected end of data")
  ∧ ∃ st',
      get strict_env DETAILS (Val (VStr "/cwd/truncated.StormReplay")) None
          truncated_opened
      = (Throw (Exn "unexpected end of data"), st')
      ∧ heap st' = heap truncated_opened.
Proof.
  split_and!; try reflexivity.
  destruct (get_decode_failure_propagates strict_env DETAILS
              (Val (VStr "/cwd/truncated.StormReplay")) None truncated_opened 0
              truncated_opened truncated_loaded truncated_data strict_protocol
              VNull decodeReplayDetails (Exn "unexpected end of data"))
    as (st' & Hget & Hheap & _); try reflexivity.
  exists st'. split; [exact Hget | exact Hheap].
Defined.

Lemma get_stream_failure_caches_partial_witness :
  indexOf_found streaming GAME_EVENTS = true
  ∧ open strict_env (Val (VStr "/cwd/truncated.StormReplay")) false truncated_opened
    = (Ret (Archive 0), truncated_opened)
  ∧ lastUsed truncated_opened = Some 0
  ∧ heap truncated_opened !! 0 = Some truncated_loaded
  ∧ filename truncated_loaded = Some "/cwd/truncated.StormReplay"
  ∧ error_truthy (error truncated_loaded) = false
  ∧ data truncated_loaded = Some truncated_data
  ∧ truthy (default VUndefined (truncated_data !! GAME_EVENTS)) = false
  ∧ protocol truncated_loaded = Some strict_protocol
  ∧ readFile (mpq truncated_loaded) GAME_EVENTS
    = Ret (VArr [VObj [("m_playerId", VNum 1); ("m_name", VBuf [x41])];
                 VObj [("m_playerId", VNum 2)];
                 VNull])
  ∧ decoderMap GAME_EVENTS = Some decodeReplayGameEvents
  ∧ raises (decode_events strict_protocol decodeReplayGameEvents
              (VArr [VObj [("m_playerId", VNum 1); ("m_name", VBuf [x41])];
                     VObj [("m_playerId", VNum 2)];
                     VNull]))
    = Some (Exn "unexpected end of stream")
  ∧ ∃ st',
      get strict_env GAME_EVENTS (Val (VStr "/cwd/truncated.StormReplay")) None
          truncated_opened
      = (Throw (Exn "unexpected end of stream"), st')
      ∧ get strict_env GAME_EVENTS (Val (VStr "/cwd/truncated.StormReplay")) None st'
        = (Ret (VArr [VObj [("m_playerId", VNum 1); ("m_name", VStr "A")];
                      VObj [("m_playerId", VNum 2)]]),
           st').
Proof.
  split_and!; try reflexivity.
  destruct (get_stream_failure_caches_partial strict_env GAME_EVENTS
              (Val (VStr "/cwd/truncated.StormReplay")) truncated_opened 0
              truncated_opened truncated_loaded truncated_data strict_protocol
              (VArr [VObj [("m_playerId", VNum 1); ("m_name", VBuf [x41])];
                     VObj [("m_playerId", VNum 2)];
                     VNull])
              decodeReplayGameEvents (Exn "unexpected end of stream")
              "/cwd/truncated.StormReplay")
    as (st' & Hget & _ & Hagain); try reflexivity.
  exists st'. split; [exact Hget | exact Hagain].
Defined.

Lemma get_stream_read_failure_caches_empty_witness :
  indexOf_found streaming MESSAGE_EVENTS = true
  ∧ open strict_env (Val (VStr "/cwd/truncated.StormReplay")) false truncated_opened
    = (Ret (Archive 0), truncated_opened)
  ∧ lastUsed truncated_opened = Some 0
  ∧ heap truncated_opened !! 0 = Some truncated_loaded
  ∧ filename truncated_loaded = Some "/cwd/truncated.StormReplay"
  ∧ error_truthy (error truncated_loaded) = false
  ∧ data truncated_loaded = Some truncated_data
  ∧ truthy (default VUndefined (truncated_data !! MESSAGE_EVENTS)) = false
  ∧ protocol truncated_loaded = Some strict_protocol
  ∧ readFile (mpq truncated_loaded) MESSAGE_EVENTS
    = Throw (Exn "file not found in archive")
  ∧ ∃ st',
      get strict_env MESSAGE_EVENTS (Val (VStr "/cwd/truncated.StormReplay")) None
          truncated_opened
      = (Throw (Exn "file not found in archive"), st')
      ∧ get strict_env MESSAGE_EVENTS (Val (VStr "/cwd/truncated.StormReplay")) None st'
        = (Ret (VArr []), st').
Proof.
  split_and!; try reflexivity.
  destruct (get_stream_read_failure_caches_empty strict_env MESSAGE_EVENTS
              (Val (VStr "/cwd/truncated.StormReplay")) truncated_opened 0
              truncated_opened truncated_loaded truncated_data strict_protocol
              (Exn "file not found in archive") "/cwd/truncated.StormReplay")
    as (st' & Hget & _ & Hagain); try reflexivity.
  exists st'. split; [exact Hget | exact Hagain].
Defined.

Lemma get_rejected_argument_witness :
  open sample_env (Val (VStr "missing.StormReplay")) false sample_opened
  = (Ret (ErrorValue (Exn "ENOENT: no such file")),
     emit [NewMPQArchive "/cwd/missing.StormReplay"] sample_opened)
  ∧ get sample_env DETAILS (Val (VStr "missing.StormReplay")) None sample_opened
    = (Ret VUndefined,
       emit [LoggerLog "Heroprotocol: undefined"]
            (emit [NewMPQArchive "/cwd/missing.StormReplay"] sample_opened)).
Proof.
  split; [reflexivity |].
  apply (get_rejected_argument sample_env DETAILS (Val (VStr "missing.StormReplay")) None
           sample_opened (Exn "ENOENT: no such file")).
  reflexivity.
Defined.

Lemma parseFile_agrees_with_get_witness :
  GAME_EVENTS ∈ six_sections
  ∧ open sample_env (Handle 0) false sample_state = (Ret (Archive 0), sample_opened)
  ∧ heap sample_opened !! 0 = Some sample_loaded
  ∧ error_truthy (error sample_loaded) = false
  ∧ data sample_loaded = Some (default ∅ (data sample_loaded))
  ∧ truthy (default VUndefined (default ∅ (data sample_loaded) !! GAME_EVENTS)) = false
  ∧ protocol sample_loaded = Some sample_protocol
  ∧ require_protocol sample_env (to_string sample_env (VNum 29406)) = Ret sample_protocol
  ∧ readFile (mpq sample_loaded) GAME_EVENTS = Ret (VArr sample_events)
  ∧ (get sample_env GAME_EVENTS (Handle 0) None sample_state).1
    = parseFile sample_env GAME_EVENTS (VArr sample_events) (VNum 29406).
Proof.
  assert (GAME_EVENTS ∈ six_sections) as Hsix.
  { apply indexOf_found_elem_of. reflexivity. }
  split; [exact Hsix |]. do 8 (split; [reflexivity |]).
  apply (parseFile_agrees_with_get sample_env GAME_EVENTS (Handle 0) sample_state 0
           sample_opened sample_loaded (default ∅ (data sample_loaded)) sample_protocol
           (VArr sample_events) (VNum 29406));
    first [exact Hsix | reflexivity].
Defined.

Lemma parseFile_result_normalized_witness :
  parseFile sample_env DETAILS (VObj [("m_title", VBuf [x48; x69])]) (VNum 29406)
  = Ret (VObj [("m_title", VStr "Hi")])
  ∧ buffer_free (VObj [("m_title", VStr "Hi")]) = true.
Proof.
  split; [reflexivity |].
  apply (parseFile_result_normalized sample_env DETAILS
           (VObj [("m_title", VBuf [x48; x69])]) (VNum 29406)).
  reflexivity.
Defined.

Lemma parseHeader_matches_open_witness :
  cache_miss sample_state (Handle 1) false = true
  ∧ resolve sample_env (Handle 1) sample_state = (Archive 1, sample_state)
  ∧ heap sample_state !! 1 = Some (sample_handle 99999)
  ∧ unsupported_build sample_env (sample_handle 99999) (VNum 99999)
  ∧ ∃ header st2,
      parseHeader sample_env (userDataHeader_content (mpq (sample_handle 99999)))
      = Ret header
      ∧ open sample_env (Handle 1) false sample_state = (Ret (Archive 1), st2)
      ∧ cached_section st2 1 HEADER = Some header.
Proof.
  assert (unsupported_build sample_env (sample_handle 99999) (VNum 99999)) as Hunsup.
  { eexists _, _, _. split_and!; reflexivity. }
  split_and!; [reflexivity | reflexivity | reflexivity | exact Hunsup |].
  exact (parseHeader_matches_open sample_env (Handle 1) false sample_state 1
           sample_state (sample_handle 99999) (VNum 99999)
           eq_refl eq_refl eq_refl Hunsup).
Defined.

Lemma open_effects_witness :
  open sample_env (Val (VStr "b.StormReplay")) false sample_opened
  = ((open sample_env (Val (VStr "b.StormReplay")) false sample_opened).1,
     after (open sample_env (Val (VStr "b.StormReplay")) false) sample_opened)
  ∧ ∃ effs,
      trace (after (open sample_env (Val (VStr "b.StormReplay")) false) sample_opened)
      = trace sample_opened ++ effs
      ∧ Forall opening_effect effs.
Proof.
  split; [reflexivity |].
  exact (open_effects sample_env (Val (VStr "b.StormReplay")) false sample_opened
           _ _ (surjective_pairing _)).
Defined.

Lemma get_effects_witness :
  get sample_env DETAILS (Handle 0) None sample_state
  = (Ret (VObj [("m_title", VStr "Hi")]), sample_details_cached)
  ∧ ∃ pre post,
      trace sample_details_cached = trace sample_state ++ pre ++ post
      ∧ Forall opening_effect pre
      ∧ (post = []
         ∨ (∃ msg, post = [LoggerLog msg]
                   ∧ Ret (VObj [("m_title", VStr "Hi")]) = Ret VUndefined)
         ∨ (DETAILS ∈ six_sections ++ [RAW_DATA]
            ∧ (post = [ReadFile DETAILS]
               ∨ ∃ dec, decoderMap DETAILS = Some dec
                        ∧ post = [ReadFile DETAILS; Decode false dec]))).
Proof.
  split; [reflexivity |].
  exact (get_effects sample_env DETAILS (Handle 0) None sample_state
           (Ret (VObj [("m_title", VStr "Hi")])) sample_details_cached eq_refl).
Defined.

Lemma get_result_normalized_witness :
  cache_normalized sample_state
  ∧ get sample_env GAME_EVENTS (Handle 0) (Some [[("m_playerId", VNum 2)]]) sample_state
    = (Ret (VArr [VArr [VObj [("_event", VStr "SCmd"); ("m_playerId", VNum 2)]]]),
       after (get sample_env GAME_EVENTS (Handle 0) (Some [[("m_playerId", VNum 2)]]))
             sample_state)
  ∧ buffer_free (VArr [VArr [VObj [("_event", VStr "SCmd"); ("m_playerId", VNum 2)]]])
    = true.
Proof.
  assert (cache_normalized sample_state) as Hinv.
  { intros r a d f v Hr Hd Hv. destruct r as [| [| r]]; simpl in Hr; simplify_eq. }
  split_and!; [exact Hinv | reflexivity |].
  apply (get_result_normalized sample_env GAME_EVENTS (Handle 0)
           (Some [[("m_playerId", VNum 2)]]) sample_state _ _ Hinv eq_refl).
Defined.

Lemma run_calls_keep_invariants_witness :
  wf sample_state
  ∧ cache_normalized sample_state
  ∧ wf (run_calls sample_env
          [CallGet DETAILS (Handle 0) None;
           CallOpen (Val (VStr "b.StormReplay")) false;
           CallGet GAME_EVENTS (Val (VStr "/cwd/b.StormReplay")) None] sample_state)
  ∧ cache_normalized
      (run_calls sample_env
         [CallGet DETAILS (Handle 0) None;
          CallOpen (Val (VStr "b.StormReplay")) false;
          CallGet GAME_EVENTS (Val (VStr "/cwd/b.StormReplay")) None] sample_state).
Proof.
  assert (wf sample_state) as Hwf by (intros r Hr; discriminate Hr).
  assert (cache_normalized sample_state) as Hinv.
  { intros r a d f v Hr Hd Hv. destruct r as [| [| r]]; simpl in Hr; simplify_eq. }
  split; [exact Hwf |]. split; [exact Hinv |].
  exact (run_calls_keep_invariants sample_env _ sample_state Hwf Hinv).
Defined.


(** ** Reads through [Object.prototype] *)

(** A field named like a property of [Object.prototype] is never
    [undefined] on an event that lacks it: the criterion
    [{constructor: undefined}] matches no event, and the criterion holding
    the inherited built-in itself matches every event. *)
Example get_filter_inherited_name :
  (get sample_env GAME_EVENTS (Handle 0)
       (Some [[("constructor", VUndefined)]; [("constructor", VBuiltin "constructor")]])
       sample_state).1
  = Ret (VArr [VArr []; VArr (map (normalize sample_env) sample_events)]).
Proof. by vm_compute. Qed.

(** [get] of a name that [Object.prototype] defines finds the inherited
    built-in in [archive.data] and returns it as if it were cached. *)
Example get_inherited_name :
  get sample_env "constructor" (Val (VStr "/cwd/a.StormReplay")) None sample_path_opened
  = (Ret (VBuiltin "constructor"), sample_path_opened).
Proof. by vm_compute. Qed.

(** ** An archive of an unsupported build, by object and by filename *)

Section UnsupportedByFilename.
Variable E : env.

(** Named by the filename it is cached under, an archive in error is not
    opened again: [get] logs its error once and returns [undefined], with no
    decode and no read. *)
Lemma get_error_by_filename st r a path archiveFile keys :
  lastUsed st = Some r → heap st !! r = Some a → filename a = Some path →
  error_truthy (error a) = true →
  get E archiveFile (Val (VStr path)) keys st
  = (Ret VUndefined, emit [LoggerLog (diagnostic (error a))] st).
Proof.
  intros Hr Ha Hpath Herr. unfold get.
  rewrite (open_cached_filename E st r a path) by done.
  by rewrite Ha, Herr.
Qed.
End UnsupportedByFilename.

(** C3 (every [get] on an archive of an unsupported build returns
    [undefined] with one diagnostic and without attempting a section decode)
    does not hold of the code for an archive object: the result and the
    single diagnostic are as claimed, but the re-open of line 107 decodes
    the header with the bootstrap protocol on every call, and for the header
    section that is a decode of the very section asked for.  Named by its
    cached filename, the same kind of archive is answered with the
    diagnostic alone. *)
Lemma get_unsupported_decodes_header :
  cached_section sample_unsupported_opened 1 DETAILS = None
  ∧ (get sample_env DETAILS (Handle 1) None sample_unsupported_opened).1 = Ret VUndefined
  ∧ trace (after (get sample_env DETAILS (Handle 1) None) sample_unsupported_opened)
    = trace sample_unsupported_opened
      ++ [Decode true decodeReplayHeader;
          LoggerLog "Heroprotocol: protocol 99999 not found"]
  ∧ (get sample_env HEADER (Handle 1) None sample_unsupported_opened).1 = Ret VUndefined
  ∧ trace (after (get sample_env HEADER (Handle 1) None) sample_unsupported_opened)
    = trace sample_unsupported_opened
      ++ [Decode true decodeReplayHeader;
          LoggerLog "Heroprotocol: protocol 99999 not found"]
  ∧ get sample_env DETAILS (Val (VStr "/cwd/b.StormReplay")) None
        sample_unsupported_path_opened
    = (Ret VUndefined,
       emit [LoggerLog "Heroprotocol: protocol 99999 not found"]
            sample_unsupported_path_opened).
Proof. split_and!; by vm_compute. Qed.
